(** * go-iden3-core: identifier codec and challenge helpers

    A shallow embedding of the Go sources
    - [utils/utils.go], package [utils]: [CheckPoW], [VerifyTimestamp];
    - [utils/utils.go], package [core] (the DID codec over byte-valued
      methods): [BuildDIDType], the reverse look-ups, [IDFromDID],
      [ParseDIDFromID], [EthAddressFromID], [GenesisFromEthAddress];
    - the earlier DID codec of package [core] (string-valued methods):
      [BuildDIDType], [Decompose].

    Bytes are integers in [0, 256); Go arrays and slices are lists; Go's
    multiple return values are tuples whose last component is the error
    ([None] is Go's [nil]); a run-time panic is the [None] of an option. *)

From Stdlib Require Import ZArith String Ascii Bool List Lia Permutation.
From Stdlib Require DecimalString.
From Stdlib Require Import SpecFloat.
Import ListNotations.
Local Open Scope Z_scope.

(** ** The fragment of Go the sources rely on *)
Module Go.

(** A byte is carried by an integer; [is_byte] is its range. *)
Abbreviation byte := Z (only parsing).

Definition is_byte (b : byte) : bool := (0 <=? b) && (b <? 256).

Definition is_bytes (n : nat) (l : list byte) : bool :=
  Nat.eqb (length l) n && forallb is_byte l.

(** [s[lo:hi]] for an array, or for a slice that spans its whole backing
    array: the bounds must satisfy [0 <= lo <= hi <= len s], otherwise
    the program panics. *)
Definition slice {A : Type} (s : list A) (lo hi : Z) : option (list A) :=
  if (0 <=? lo) && (lo <=? hi) && (hi <=? Z.of_nat (length s))
  then Some (firstn (Z.to_nat (hi - lo)) (skipn (Z.to_nat lo) s))
  else None.

(** [bytes.Equal]. *)
Fixpoint bytes_Equal (a b : list byte) : bool :=
  match a, b with
  | [], [] => true
  | x :: a', y :: b' => (x =? y) && bytes_Equal a' b'
  | _, _ => false
  end.

(** [copy(dst, src)]: the first [min (len dst) (len src)] elements of
    [dst] are overwritten; the value is the new content of [dst]. *)
Definition copy {A : Type} (dst src : list A) : list A :=
  firstn (length dst) src ++ skipn (length src) dst.

(** [[]byte(s)] for a string [s]. *)
Definition bytes_of_string (s : string) : list byte :=
  map (fun c => Z.of_N (N_of_ascii c)) (list_ascii_of_string s).

(** Package-level error variables; Go compares them by identity. *)
Inductive sentinel :=
| ErrUnsupportedID
| ErrIncorrectDID
| ErrMethodUnknown
| ErrDIDMethodNotSupported
| ErrBlockchainNotSupportedForDID
| ErrNetworkNotSupportedForDID
| ErrInvalidDID.

(** An error value: a package-level variable, the result of a call of
    [errors.New], or [fmt.Errorf("%w: " ++ msg, inner)]. *)
Inductive error :=
| Var (s : sentinel)
| New (msg : string)
| Errorf (inner : error) (msg : string).

Definition sentinel_eqb (a b : sentinel) : bool :=
  match a, b with
  | ErrUnsupportedID, ErrUnsupportedID
  | ErrIncorrectDID, ErrIncorrectDID
  | ErrMethodUnknown, ErrMethodUnknown
  | ErrDIDMethodNotSupported, ErrDIDMethodNotSupported
  | ErrBlockchainNotSupportedForDID, ErrBlockchainNotSupportedForDID
  | ErrNetworkNotSupportedForDID, ErrNetworkNotSupportedForDID
  | ErrInvalidDID, ErrInvalidDID => true
  | _, _ => false
  end.

(** [errors.Is(err, target)] for a package-level [target]. *)
Fixpoint errors_Is (err : error) (target : sentinel) : bool :=
  match err with
  | Var s => sentinel_eqb s target
  | New _ => false
  | Errorf inner _ => errors_Is inner target
  end.

Definition sentinel_text (s : sentinel) : string :=
  match s with
  | ErrUnsupportedID => "unsupported ID"
  | ErrIncorrectDID => "incorrect DID"
  | ErrMethodUnknown => "unknown DID method"
  | ErrDIDMethodNotSupported => "not supported did method"
  | ErrBlockchainNotSupportedForDID => "not supported blockchain"
  | ErrNetworkNotSupportedForDID => "not supported network"
  | ErrInvalidDID => "invalid did format"
  end%string.

(** [err.Error()], which is also what the verb [%v] prints. *)
Fixpoint Error (err : error) : string :=
  match err with
  | Var s => sentinel_text s
  | New msg => msg
  | Errorf inner msg => (Error inner ++ ": " ++ msg)%string
  end.

(** [strings.Join]. *)
Fixpoint strings_Join (parts : list string) (sep : string) : string :=
  match parts with
  | [] => EmptyString
  | [p] => p
  | p :: rest => (p ++ sep ++ strings_Join rest sep)%string
  end.

End Go.
Import Go.

(** ** The fragment of Go's package [time] and of [float64] *)
Module GoTime.

(** Conversion to [int64]: the value modulo [2^64], read as signed. *)
Definition int64 (x : Z) : Z := (x + 2 ^ 63) mod 2 ^ 64 - 2 ^ 63.

(** [time.Time] without its location: seconds since January 1 of year 1
    (an [int64]) and nanoseconds within the second. *)
Record Time := mkTime { sec : Z; nsec : Z }.

Definition unixToInternal : Z := 62135596800.

(** [time.Unix(sec, nsec)] *)
Definition Unix (s n : Z) : Time :=
  let '(s, n) :=
    if (n <? 0) || (1000000000 <=? n) then
      let k := Z.quot n 1000000000 in
      let s := int64 (s + k) in
      let n := n - k * 1000000000 in
      if n <? 0 then (int64 (s - 1), n + 1000000000) else (s, n)
    else (s, n) in
  mkTime (int64 (s + unixToInternal)) n.

(** [t.Before(u)] *)
Definition Before (t u : Time) : Prop :=
  sec t < sec u \/ (sec t = sec u /\ nsec t < nsec u).

(** [time.Duration]: nanoseconds, an [int64]. *)
Definition Second : Z := 1000000000.
Definition minDuration : Z := - 2 ^ 63.
Definition maxDuration : Z := 2 ^ 63 - 1.

(** [t.Sub(u)]: "the duration t-u; if the result exceeds the maximum (or
    minimum) value that can be stored in a Duration, the maximum (or
    minimum) duration will be returned". *)
Definition Sub (t u : Time) : Z :=
  let d := (sec t - sec u) * Second + (nsec t - nsec u) in
  Z.max minDuration (Z.min maxDuration d).

(** [time.Since(t)], for a [t] without monotonic reading, when the wall
    clock reads [now]: [time.Now().Sub(t)]. *)
Definition Since (now t : Time) : Z := Sub now t.

(** IEEE 754 binary64, as Go's [float64]. *)
Definition float64 := spec_float.
Definition prec : Z := 53.
Definition emax : Z := 1024.

(** [float64(z)] for an integer [z]: rounded to nearest, ties to even. *)
Definition float64_of_int (z : Z) : float64 :=
  binary_normalize prec emax z 0 false.

(** [int(f)]: the fraction is discarded.  Where the result does not fit an
    [int64] Go leaves the value to the implementation; it is the one of
    amd64 here ([-2^63]). *)
Definition int_of_float64 (f : float64) : Z :=
  match f with
  | S754_zero _ => 0
  | S754_finite s m e =>
      let a := if 0 <=? e then Zpos m * 2 ^ e else Zpos m / 2 ^ (- e) in
      let v := if s then - a else a in
      if (minDuration <=? v) && (v <=? maxDuration) then v else minDuration
  | _ => minDuration
  end.

(** [d.Seconds()]:
    [sec := d / Second; nsec := d % Second;
     return float64(sec) + float64(nsec)/1e9] *)
Definition Seconds (d : Z) : float64 :=
  let sec := Z.quot d Second in
  let nsec := Z.rem d Second in
  SFadd prec emax (float64_of_int sec)
        (SFdiv prec emax (float64_of_int nsec) (float64_of_int 1000000000)).

End GoTime.

(** ** Package [utils] *)
Module Utils.
Import GoTime.

(** Modelled from the spec: the declaration of [Hash] and of its method
    [Bytes] is not among the sources.  A hash is a 256-bit value; it is
    compared below with slices of a [[32]byte] array, so it is taken as an
    array of 32 bytes of which [Bytes] is the full slice. *)
Record Hash := mkHash {
  Bytes : list byte;
  Bytes_wf : is_bytes 32 Bytes = true
}.

(** [var empty [32]byte] *)
Definition empty : list byte := repeat 0 32.

(** [CheckPoW]; [None] is the slice-bounds panic. *)
Definition CheckPoW (hash : Hash) (difficulty : Z) : option bool :=
  match slice (Bytes hash) 0 difficulty, slice empty 0 difficulty with
  | Some h, Some z =>
      Some (if negb (bytes_Equal h z) then false else true)
  | _, _ => None
  end.

(** The measure the specification names: the number of zero bits at the
    front of the hash, most significant bit of the first byte first. *)
Fixpoint lz_byte (n : nat) (b : byte) : Z :=
  match n with
  | O => 0
  | S k => if Z.testbit b (Z.of_nat k) then 0 else 1 + lz_byte k b
  end.

Fixpoint LeadingZeroBits (l : list byte) : Z :=
  match l with
  | [] => 0
  | b :: t => if b =? 0 then 8 + LeadingZeroBits t else lz_byte 8 b
  end.

Fixpoint LeadingZeroBytes (l : list byte) : Z :=
  match l with
  | [] => 0
  | b :: t => if b =? 0 then 1 + LeadingZeroBytes t else 0
  end.

(** [VerifyTimestamp], the reading [now] of the clock made a parameter;
    [timestamp] is a [uint64], [timelimit] an [int]. *)
Definition VerifyTimestamp (now : Time) (timestamp : Z) (timelimit : Z)
  : bool :=
  let t := Unix (int64 timestamp) 10 in
  let elapsed := Since now t in
  if int_of_float64 (Seconds elapsed) >? timelimit then false else true.

(** [binary.Write(buff, binary.BigEndian, u)] on a fresh [bytes.Buffer]
    for a [uint32]: [PutUint32] stores [byte(u >> 24)], [byte(u >> 16)],
    [byte(u >> 8)], [byte(u)]; writing to the buffer does not fail. *)
Definition Uint32ToEthBytes (u : Z) : list byte * option error :=
  ([Z.shiftr u 24 mod 256; Z.shiftr u 16 mod 256;
    Z.shiftr u 8 mod 256; u mod 256], None).

(** [Uint64ToEthBytes], with [PutUint64]. *)
Definition Uint64ToEthBytes (u : Z) : list byte * option error :=
  ([Z.shiftr u 56 mod 256; Z.shiftr u 48 mod 256;
    Z.shiftr u 40 mod 256; Z.shiftr u 32 mod 256;
    Z.shiftr u 24 mod 256; Z.shiftr u 16 mod 256;
    Z.shiftr u 8 mod 256; u mod 256], None).

(** [EthBytesToUint32]: [binary.BigEndian.Uint32(b)] reads [b[3]] first
    (a panic when [b] is shorter than four bytes) and returns
    [b[3] | b[2]<<8 | b[1]<<16 | b[0]<<24]. *)
Definition EthBytesToUint32 (b : list byte) : option Z :=
  match b with
  | b0 :: b1 :: b2 :: b3 :: _ =>
      Some (Z.lor (Z.lor (Z.lor b3 (Z.shiftl b2 8)) (Z.shiftl b1 16))
                  (Z.shiftl b0 24))
  | _ => None
  end.

(** [EthBytesToUint64]: [binary.BigEndian.Uint64(b)]. *)
Definition EthBytesToUint64 (b : list byte) : option Z :=
  match b with
  | b0 :: b1 :: b2 :: b3 :: b4 :: b5 :: b6 :: b7 :: _ =>
      Some (Z.lor (Z.lor (Z.lor (Z.lor (Z.lor (Z.lor (Z.lor
              b7 (Z.shiftl b6 8)) (Z.shiftl b5 16)) (Z.shiftl b4 24))
              (Z.shiftl b3 32)) (Z.shiftl b2 40)) (Z.shiftl b1 48))
              (Z.shiftl b0 56))
  | _ => None
  end.

(** How a call ends: with a value, in a panic, or not within the given
    number of loop iterations. *)
Inductive outcome (A : Type) :=
| Returns (a : A)
| Panics
| OutOfFuel.
Arguments Returns {A} a.
Arguments Panics {A}.
Arguments OutOfFuel {A}.

Section ProofOfWorkSearch.

(** [type PoWData interface { IncrementNonce() PoWData }], and what [PoW]
    calls and the sources do not define: [json.Marshal] on such data and
    [HashBytes]. *)
Variable PoWData : Type.
Variable IncrementNonce : PoWData -> PoWData.
Variable json_Marshal : PoWData -> list byte * option error.
Variable HashBytes : list byte -> Hash.

(** The loop of [PoW], entered with the current [data] and its [hash];
    [fuel] bounds the number of iterations. *)
Fixpoint PoW_loop (fuel : nat) (data : PoWData) (hash : Hash)
         (difficulty : Z) : outcome (option PoWData * option error) :=
  match CheckPoW hash difficulty with
  | None => Panics
  | Some true => Returns (Some data, None)
  | Some false =>
      match fuel with
      | O => OutOfFuel
      | S fuel' =>
          let data := IncrementNonce data in
          let '(b, err) := json_Marshal data in
          match err with
          | Some e => Returns (None, Some e)
          | None => PoW_loop fuel' data (HashBytes b) difficulty
          end
      end
  end.

(** [PoW] *)
Definition PoW (fuel : nat) (data : PoWData) (difficulty : Z)
  : outcome (option PoWData * option error) :=
  let '(b, err) := json_Marshal data in
  match err with
  | Some e => Returns (None, Some e)
  | None => PoW_loop fuel data (HashBytes b) difficulty
  end.

End ProofOfWorkSearch.

End Utils.

(** ** What the two DID codecs share *)
Module DidTypes.

(** [type Blockchain string] and its constants. *)
Abbreviation Blockchain := string (only parsing).
Definition Ethereum : Blockchain := "eth".
Definition Polygon : Blockchain := "polygon".
Definition UnknownChain : Blockchain := "unknown".
Definition ReadOnly : Blockchain := "readonly".
Definition NoChain : Blockchain := "".

(** [type NetworkID string] and its constants. *)
Abbreviation NetworkID := string (only parsing).
Definition Main : NetworkID := "main".
Definition Mumbai : NetworkID := "mumbai".
Definition Goerli : NetworkID := "goerli".
Definition UnknownNetwork : NetworkID := "unknown".
Definition NoNetwork : NetworkID := "".

(** [const DIDSchema = "did"] *)
Definition DIDSchema : string := "did".

(** [type DIDNetworkFlag struct { Blockchain; NetworkID }] *)
Record DIDNetworkFlag := mkFlag {
  flagBlockchain : Blockchain;
  flagNetworkID : NetworkID
}.

Definition DIDNetworkFlag_eqb (a b : DIDNetworkFlag) : bool :=
  String.eqb (flagBlockchain a) (flagBlockchain b)
  && String.eqb (flagNetworkID a) (flagNetworkID b).

(** A Go map literal: its entries in the order of the source text (the keys
    of a literal are pairwise distinct). *)
Definition gomap (K V : Type) := list (K * V).

(** [v, ok := m[k]] *)
Fixpoint map_get {K V : Type} (eqb : K -> K -> bool)
         (m : gomap K V) (k : K) : option V :=
  match m with
  | [] => None
  | (k', v) :: rest => if eqb k' k then Some v else map_get eqb rest k
  end.

(** The first entry with value [_v] along an iteration [entries]: the loop
    [for k, v := range m { if v == _v { return k } }]. *)
Definition range_find_value {K : Type} (entries : list (K * byte))
           (_v : byte) : option K :=
  match find (fun kv => snd kv =? _v) entries with
  | Some kv => Some (fst kv)
  | None => None
  end.

(** [type ID [31]byte] *)
Abbreviation ID := (list byte) (only parsing).

(** [ID{}] *)
Definition ID_zero : ID := repeat 0 31.

(** Modelled from the spec: the constant [genesisLn] is not among the
    sources; the genesis field is 27 bytes long. *)
Definition genesisLn : nat := 27.

(** [a[lo:hi]] and [a[lo:]] for an array [a] and constant bounds within its
    length (checked by the compiler, so no panic). *)
Definition sub {A : Type} (a : list A) (lo hi : nat) : list A :=
  firstn (hi - lo) (skipn lo a).

(** The struct of the generic DID parser (package [did]). *)
Record DID := mkDID {
  Method : string;
  DID_ID : string;
  IDStrings : list string;
  Params : list (string * string);
  Path : string;
  PathSegments : list string;
  Query : string;
  Fragment : string
}.

(** What the sources call and do not define: the run-time's choice of the
    order in which [range] visits a map, the checksum and text codec of
    [ID] (file [id.go]), the generic DID parser and printer, and SHA-256. *)
Record Externals := mkExternals {
  rangeOrder : forall A : Type, list A -> list A;
  CalculateChecksum : list byte -> list byte -> list byte;
  CheckChecksum : ID -> bool;
  IDFromString : string -> ID * option error;
  ID_String : ID -> string;
  did_Parse : string -> option DID * option error;
  DID_String : DID -> string;
  sha256_Sum256 : list byte -> list byte
}.

(** What is known of them: [range] visits every entry once, and the two
    digests have the lengths of their array types. *)
Record ExternalsOK (E : Externals) : Prop := mkExternalsOK {
  rangeOrder_perm : forall (A : Type) (l : list A),
      Permutation (rangeOrder E A l) l;
  CalculateChecksum_length : forall typ genesis,
      length (CalculateChecksum E typ genesis) = 2%nat;
  sha256_length : forall msg, length (sha256_Sum256 E msg) = 32%nat
}.

(** Modelled from the spec: [NewID] is not among the sources.  "Pure
    construction; appends the computed checksum": the identifier is
    [type:2][genesis:27][checksum:2]. *)
Definition NewID (E : Externals) (typ genesis : list byte) : ID :=
  typ ++ genesis ++ CalculateChecksum E typ genesis.

(** Modelled from the spec: the accessors of the type field, "method byte,
    blockchain/network byte", are not among the sources. *)
Definition MethodByte (id : ID) : byte := nth 0 id 0.
Definition BlockchainNetworkByte (id : ID) : byte := nth 1 id 0.

End DidTypes.
Import DidTypes.

(** ** Package [core]: the DID codec of [utils/utils.go] *)
Module Core.

(** [type DIDMethod byte] and its constants. *)
Abbreviation DIDMethod := Z (only parsing).
Definition DIDMethodIden3 : DIDMethod := 1.             (* 0b00000001 *)
Definition DIDMethodPolygonID : DIDMethod := 2.         (* 0b00000010 *)
Definition DIDMethodPolygonIDOnChain : DIDMethod := 130. (* 0b10000010 *)
Definition DIDMethodOther : DIDMethod := 255.           (* 0b11111111 *)

(** [var knownMethods = map[DIDMethod]struct{}{...}] *)
Definition knownMethods : gomap DIDMethod unit :=
  [ (DIDMethodIden3, tt); (DIDMethodPolygonID, tt) ].

(** [fmt.Sprintf("%v", uint8(m))] *)
Definition decimal (m : Z) : string :=
  DecimalString.NilZero.string_of_uint (N.to_uint (Z.to_N m)).

(** [func (m DIDMethod) String() string] *)
Definition DIDMethod_String (m : DIDMethod) : string :=
  if m =? DIDMethodIden3 then "iden3"
  else if m =? DIDMethodPolygonID then "polygonid"
  else if m =? DIDMethodOther then ""
  else ("unknown<" ++ decimal m ++ ">")%string.

(** [func (m DIDMethod) Byte() byte] *)
Definition DIDMethod_Byte (m : DIDMethod) : byte := m.

(** [var DIDMethodNetwork = map[DIDMethod]map[DIDNetworkFlag]byte{...}] *)
Definition DIDMethodNetwork : gomap DIDMethod (gomap DIDNetworkFlag byte) :=
  [ (DIDMethodIden3,
     [ (mkFlag ReadOnly NoNetwork, 0);
       (mkFlag Polygon Main, Z.lor 16 1);
       (mkFlag Polygon Mumbai, Z.lor 16 2);
       (mkFlag Ethereum Main, Z.lor 32 1);
       (mkFlag Ethereum Goerli, Z.lor 32 2) ]);
    (DIDMethodPolygonID,
     [ (mkFlag ReadOnly NoNetwork, 0);
       (mkFlag Polygon Main, Z.lor 16 1);
       (mkFlag Polygon Mumbai, Z.lor 16 2);
       (mkFlag Ethereum Main, Z.lor 32 1);
       (mkFlag Ethereum Goerli, Z.lor 32 2) ]);
    (DIDMethodOther,
     [ (mkFlag UnknownChain UnknownNetwork, 255) ]) ].

(** [BuildDIDType] *)
Definition BuildDIDType (method : DIDMethod) (blockchain : Blockchain)
           (network : NetworkID) : list byte * option error :=
  match map_get Z.eqb knownMethods method with
  | None => ([0; 0], Some (Var ErrDIDMethodNotSupported))
  | Some _ =>
      let blockchain :=
        if String.eqb blockchain NoChain then ReadOnly else blockchain in
      let netFlag := mkFlag blockchain network in
      match map_get Z.eqb DIDMethodNetwork method with
      | None => ([0; 0], Some (Var ErrNetworkNotSupportedForDID))
      | Some networks =>
          match map_get DIDNetworkFlag_eqb networks netFlag with
          | None => ([0; 0], Some (Var ErrNetworkNotSupportedForDID))
          | Some sb => ([DIDMethod_Byte method; sb], None)
          end
      end
  end.

Section WithExternals.
Variable E : Externals.

(** [FindNetworkIDForDIDMethodByValue] *)
Definition FindNetworkIDForDIDMethodByValue (method : DIDMethod)
           (_v : byte) : NetworkID * option error :=
  match map_get Z.eqb DIDMethodNetwork method with
  | None => (UnknownNetwork, Some (Var ErrDIDMethodNotSupported))
  | Some networks =>
      match range_find_value (rangeOrder E _ networks) _v with
      | Some k => (flagNetworkID k, None)
      | None => (UnknownNetwork, Some (Var ErrNetworkNotSupportedForDID))
      end
  end.

(** [FindBlockchainForDIDMethodByValue] *)
Definition FindBlockchainForDIDMethodByValue (method : DIDMethod)
           (_v : byte) : Blockchain * option error :=
  match map_get Z.eqb DIDMethodNetwork method with
  | None => (UnknownChain, Some (Var ErrDIDMethodNotSupported))
  | Some networks =>
      match range_find_value (rangeOrder E _ networks) _v with
      | Some k => (flagBlockchain k, None)
      | None => (UnknownChain, Some (Var ErrBlockchainNotSupportedForDID))
      end
  end.

(** [decodeDIDPartsFromID] *)
Definition decodeDIDPartsFromID (id : ID)
  : DIDMethod * Blockchain * NetworkID * option error :=
  let method := nth 0 id 0 in
  let networkByte := nth 1 id 0 in
  let '(blockchain, err) :=
    FindBlockchainForDIDMethodByValue method networkByte in
  match err with
  | Some e => (DIDMethodOther, UnknownChain, UnknownNetwork, Some e)
  | None =>
      let '(networkID, err) :=
        FindNetworkIDForDIDMethodByValue method networkByte in
      match err with
      | Some e => (DIDMethodOther, UnknownChain, UnknownNetwork, Some e)
      | None => (method, blockchain, networkID, None)
      end
  end.

(** [isUnsupportedDID] *)
Definition isUnsupportedDID (method : DIDMethod) (blockchain : Blockchain)
           (networkID : NetworkID) : bool :=
  (method =? DIDMethodOther) && String.eqb blockchain UnknownChain
  && String.eqb networkID UnknownNetwork.

(** [newIDFromUnsupportedDID] *)
Definition newIDFromUnsupportedDID (did : DID) : ID :=
  let hash := sha256_Sum256 E (bytes_of_string (DID_String E did)) in
  let genesis := copy (repeat 0 genesisLn) (skipn (32 - genesisLn) hash) in
  let flg := mkFlag UnknownChain UnknownNetwork in
  let tp :=
    [ DIDMethod_Byte DIDMethodOther;
      match map_get Z.eqb DIDMethodNetwork DIDMethodOther with
      | Some networks =>
          match map_get DIDNetworkFlag_eqb networks flg with
          | Some b => b
          | None => 0
          end
      | None => 0
      end ] in
  NewID E tp genesis.

(** [idFromDID] *)
Definition idFromDID (did : DID) : ID * option error :=
  let found :=
    existsb (fun kv => String.eqb (DIDMethod_String (fst kv)) (Method did))
            (rangeOrder E _ knownMethods) in
  if negb found then (ID_zero, Some (Var ErrMethodUnknown)) else
  let n := length (IDStrings did) in
  if ((3 <? n) || (n <? 1))%nat then
    (ID_zero,
     Some (Errorf (Var ErrIncorrectDID) "unexpected number of ID strings"))
  else
  let '(id, err) := IDFromString E (nth (n - 1) (IDStrings did) EmptyString) in
  match err with
  | Some _ =>
      (id, Some (Errorf (Var ErrIncorrectDID) "can't parse ID string"))
  | None =>
  if negb (CheckChecksum E id) then
    (id, Some (Errorf (Var ErrIncorrectDID) "incorrect ID checksum"))
  else
  let '(method, blockchain, networkID, err) := decodeDIDPartsFromID id in
  match err with
  | Some e => (id, Some e)
  | None =>
  if negb (String.eqb (DIDMethod_String method) (Method did)) then
    (id, Some (Errorf (Var ErrIncorrectDID)
                      "methods in ID and DID are different"))
  else if (1 <? n)%nat
          && negb (String.eqb blockchain (nth 0 (IDStrings did) EmptyString)) then
    (id, Some (Errorf (Var ErrIncorrectDID)
                      "blockchains in ID and DID are different"))
  else if (2 <? n)%nat
          && negb (String.eqb networkID (nth 1 (IDStrings did) EmptyString)) then
    (id, Some (Errorf (Var ErrIncorrectDID)
                      "networkIDs in ID and DID are different"))
  else (id, None)
  end
  end.

(** [IDFromDID] *)
Definition IDFromDID (did : DID) : ID * option error :=
  let '(id, err) := idFromDID did in
  match err with
  | Some e =>
      if errors_Is e ErrMethodUnknown
      then (newIDFromUnsupportedDID did, None)
      else (id, err)
  | None => (id, err)
  end.

(** [ParseDIDFromID] *)
Definition ParseDIDFromID (id : ID) : option DID * option error :=
  if negb (CheckChecksum E id) then
    (None, Some (Errorf (Var ErrUnsupportedID) "invalid checksum"))
  else
  let '(method, blockchain, networkID, err) := decodeDIDPartsFromID id in
  match err with
  | Some e => (None, Some e)
  | None =>
  if isUnsupportedDID method blockchain networkID then
    (None, Some (Errorf (Var ErrMethodUnknown) "unsupported DID"))
  else
  let didParts := [DIDSchema; DIDMethod_String method; blockchain] in
  let didParts :=
    if negb (String.eqb networkID "") then didParts ++ [networkID]
    else didParts in
  let didParts := didParts ++ [ID_String E id] in
  let didString := strings_Join didParts ":" in
  match did_Parse E didString with
  | (_, Some e) => (None, Some e)
  | (did, None) => (did, None)
  end
  end.

(** [DIDFromGenesis] *)
Definition DIDFromGenesis (typ genesis : list byte)
  : option DID * option error :=
  ParseDIDFromID (NewID E typ genesis).

(** [MethodFromID] *)
Definition MethodFromID (id : ID) : DIDMethod * option error :=
  let '(method, blockchain, netID, err) := decodeDIDPartsFromID id in
  match err with
  | Some e => (DIDMethodOther, Some e)
  | None =>
      if isUnsupportedDID method blockchain netID
      then (DIDMethodOther, Some (Errorf (Var ErrMethodUnknown) "unsupported DID"))
      else (method, None)
  end.

(** [BlockchainFromID] *)
Definition BlockchainFromID (id : ID) : Blockchain * option error :=
  let '(method, blockchain, netID, err) := decodeDIDPartsFromID id in
  match err with
  | Some e => (UnknownChain, Some e)
  | None =>
      if isUnsupportedDID method blockchain netID
      then (UnknownChain, Some (Errorf (Var ErrMethodUnknown) "unsupported DID"))
      else (blockchain, None)
  end.

(** [NetworkIDFromID] *)
Definition NetworkIDFromID (id : ID) : NetworkID * option error :=
  let '(method, blockchain, netID, err) := decodeDIDPartsFromID id in
  match err with
  | Some e => (UnknownNetwork, Some e)
  | None =>
      if isUnsupportedDID method blockchain netID
      then (UnknownNetwork, Some (Errorf (Var ErrMethodUnknown) "unsupported DID"))
      else (netID, None)
  end.

End WithExternals.

(** [EthAddressFromID] *)
Definition EthAddressFromID (id : ID) : list byte * option error :=
  let z := repeat 0 7 in
  if negb (bytes_Equal z (sub id 2 (2 + length z))) then
    (repeat 0 20,
     Some (New "can't get Ethereum address: high bytes of genesis are not zero"))
  else
    let address := copy (repeat 0 20) (skipn (2 + 7) id) in
    (address, None).

(** [GenesisFromEthAddress] *)
Definition GenesisFromEthAddress (addr : list byte) : list byte :=
  let genesis := repeat 0 genesisLn in
  firstn 7 genesis ++ copy (skipn 7 genesis) addr.

End Core.

(** ** Package [core]: the earlier DID codec, with methods named by strings *)
Module CoreLegacy.

(** [type DIDMethod string] and its constants. *)
Abbreviation DIDMethod := string (only parsing).
Definition DIDMethodIden3 : DIDMethod := "iden3".
Definition DIDMethodPolygonID : DIDMethod := "polygonid".

(** [var DIDMethodByte = map[DIDMethod]byte{...}] *)
Definition DIDMethodByte : gomap DIDMethod byte :=
  [ (DIDMethodIden3, 1);       (* 0b00000001 *)
    (DIDMethodPolygonID, 2) ].  (* 0b00000010 *)

(** [var DIDMethodNetwork = map[DIDMethod]map[DIDNetworkFlag]byte{...}] *)
Definition DIDMethodNetwork : gomap DIDMethod (gomap DIDNetworkFlag byte) :=
  [ (DIDMethodIden3,
     [ (mkFlag ReadOnly NoNetwork, 0);
       (mkFlag Polygon Main, Z.lor 16 1);
       (mkFlag Polygon Mumbai, Z.lor 16 2);
       (mkFlag Ethereum Main, Z.lor 32 1);
       (mkFlag Ethereum Goerli, Z.lor 32 2) ]);
    (DIDMethodPolygonID,
     [ (mkFlag ReadOnly NoNetwork, 0);
       (mkFlag Polygon Main, Z.lor 16 1);
       (mkFlag Polygon Mumbai, Z.lor 16 2);
       (mkFlag Ethereum Main, Z.lor 32 1);
       (mkFlag Ethereum Goerli, Z.lor 32 2) ]) ].

(** [BuildDIDType] *)
Definition BuildDIDType (method : DIDMethod) (blockchain : Blockchain)
           (network : NetworkID) : list byte * option error :=
  match map_get String.eqb DIDMethodByte method with
  | None => ([0; 0], Some (Var ErrDIDMethodNotSupported))
  | Some fb =>
      let blockchain :=
        if String.eqb blockchain NoChain then ReadOnly else blockchain in
      match map_get String.eqb DIDMethodNetwork method with
      | None => ([0; 0], Some (Var ErrNetworkNotSupportedForDID))
      | Some networks =>
          match map_get DIDNetworkFlag_eqb networks
                        (mkFlag blockchain network) with
          | None => ([0; 0], Some (Var ErrNetworkNotSupportedForDID))
          | Some sb => ([fb; sb], None)
          end
      end
  end.


Section WithExternals.
Variable E : Externals.

(** [FindNetworkIDForDIDMethodByValue] *)
Definition FindNetworkIDForDIDMethodByValue (method : DIDMethod)
           (_v : byte) : NetworkID * option error :=
  match map_get String.eqb DIDMethodNetwork method with
  | None => (UnknownNetwork, Some (Var ErrDIDMethodNotSupported))
  | Some networks =>
      match range_find_value (rangeOrder E _ networks) _v with
      | Some k => (flagNetworkID k, None)
      | None => (UnknownNetwork, Some (Var ErrNetworkNotSupportedForDID))
      end
  end.

(** [FindBlockchainForDIDMethodByValue] *)
Definition FindBlockchainForDIDMethodByValue (method : DIDMethod)
           (_v : byte) : Blockchain * option error :=
  match map_get String.eqb DIDMethodNetwork method with
  | None => (UnknownChain, Some (Var ErrDIDMethodNotSupported))
  | Some networks =>
      match range_find_value (rangeOrder E _ networks) _v with
      | Some k => (flagBlockchain k, None)
      | None => (UnknownChain, Some (Var ErrNetworkNotSupportedForDID))
      end
  end.

(** [FindDIDMethodByValue] *)
Definition FindDIDMethodByValue (_v : byte) : DIDMethod * option error :=
  match range_find_value (rangeOrder E _ DIDMethodByte) _v with
  | Some k => (k, None)
  | None => (EmptyString, Some (Var ErrDIDMethodNotSupported))
  end.

(** [decodeIDFromDID] *)
Definition decodeIDFromDID (did : DID) : ID * option error :=
  let n := length (IDStrings did) in
  if (3 <? n)%nat then
    (ID_zero, Some (Errorf (Var ErrInvalidDID) "too many fields"))
  else if (n <? 1)%nat then
    (ID_zero, Some (Errorf (Var ErrInvalidDID) "no ID field in DID"))
  else
  let '(id, err) := IDFromString E (nth (n - 1) (IDStrings did) EmptyString) in
  match err with
  | Some e => (id, Some (Errorf (Var ErrInvalidDID) (Error e)))
  | None =>
      if negb (CheckChecksum E id) then
        (id, Some (Errorf (Var ErrInvalidDID) "invalid checksum"))
      else (id, None)
  end.

(** [decodeDIDPartsFromID] *)
Definition decodeDIDPartsFromID (id : ID)
  : DIDMethod * Blockchain * NetworkID * option error :=
  let methodByte := MethodByte id in
  let networkByte := BlockchainNetworkByte id in
  let '(method, err) := FindDIDMethodByValue methodByte in
  match err with
  | Some e => (EmptyString, UnknownChain, UnknownNetwork, Some e)
  | None =>
  let '(blockchain, err) :=
    FindBlockchainForDIDMethodByValue method networkByte in
  match err with
  | Some e => (EmptyString, UnknownChain, UnknownNetwork, Some e)
  | None =>
  let '(networkID, err) :=
    FindNetworkIDForDIDMethodByValue method networkByte in
  match err with
  | Some e => (EmptyString, UnknownChain, UnknownNetwork, Some e)
  | None => (method, blockchain, networkID, None)
  end
  end
  end.

(** [Decompose] *)
Definition Decompose (did : DID)
  : Blockchain * NetworkID * ID * option error :=
  let '(id, err) := decodeIDFromDID did in
  match err with
  | Some e => (UnknownChain, UnknownNetwork, id, Some e)
  | None =>
  let '(method, blockchain, networkID, err) := decodeDIDPartsFromID id in
  match err with
  | Some e => (UnknownChain, UnknownNetwork, id, Some e)
  | None =>
  let n := length (IDStrings did) in
  if negb (String.eqb method (Method did)) then
    (UnknownChain, UnknownNetwork, id,
     Some (Errorf (Var ErrInvalidDID)
             ("method mismatch: found " ++ method ++ " in ID but "
              ++ Method did ++ " in DID")))
  else if (1 <? n)%nat
          && negb (String.eqb blockchain (nth 0 (IDStrings did) EmptyString)) then
    (UnknownChain, UnknownNetwork, id,
     Some (Errorf (Var ErrInvalidDID)
             ("blockchain mismatch: found " ++ blockchain ++ " in ID but "
              ++ nth 0 (IDStrings did) EmptyString ++ " in DID")))
  else if (2 <? n)%nat
          && negb (String.eqb networkID (nth 1 (IDStrings did) EmptyString)) then
    (UnknownChain, UnknownNetwork, id,
     Some (Errorf (Var ErrInvalidDID)
             ("network ID mismatch: found " ++ networkID ++ " in ID but "
              ++ nth 1 (IDStrings did) EmptyString ++ " in DID")))
  else (blockchain, networkID, id, None)
  end
  end.

(** [IDFromDID] *)
Definition IDFromDID (did : DID) : ID * option error :=
  let '(_, _, id, err) := Decompose did in (id, err).

(** [ParseDIDFromID] *)
Definition ParseDIDFromID (id : ID) : option DID * option error :=
  if negb (CheckChecksum E id) then
    (None, Some (Errorf (Var ErrInvalidDID) "invalid checksum"))
  else
  let '(method, blockchain, networkID, err) := decodeDIDPartsFromID id in
  match err with
  | Some e => (None, Some e)
  | None =>
  let didParts := [DIDSchema; method; blockchain] in
  let didParts :=
    if negb (String.eqb networkID "") then didParts ++ [networkID]
    else didParts in
  let didParts := didParts ++ [ID_String E id] in
  let didString := strings_Join didParts ":" in
  match did_Parse E didString with
  | (_, Some e) => (None, Some e)
  | (did, None) => (did, None)
  end
  end.

End WithExternals.

End CoreLegacy.

(** ** A reference instance of the externals

    Executable stand-ins for what the sources import, used to evaluate the
    codec on concrete identifiers. *)
Module Reference.

(** *** SHA-256 (FIPS 180-4), as [crypto/sha256.Sum256] *)
Definition w32 (x : Z) : Z := x mod 2 ^ 32.
Definition rotr (n x : Z) : Z :=
  Z.lor (Z.shiftr x n) (w32 (Z.shiftl x (32 - n))).
Definition xor3 (a b c : Z) : Z := Z.lxor (Z.lxor a b) c.
Definition Ch (x y z : Z) : Z :=
  Z.lxor (Z.land x y) (Z.land (Z.lxor x (2 ^ 32 - 1)) z).
Definition Maj (x y z : Z) : Z :=
  xor3 (Z.land x y) (Z.land x z) (Z.land y z).
Definition bigSigma0 (x : Z) : Z := xor3 (rotr 2 x) (rotr 13 x) (rotr 22 x).
Definition bigSigma1 (x : Z) : Z := xor3 (rotr 6 x) (rotr 11 x) (rotr 25 x).
Definition smallSigma0 (x : Z) : Z :=
  xor3 (rotr 7 x) (rotr 18 x) (Z.shiftr x 3).
Definition smallSigma1 (x : Z) : Z :=
  xor3 (rotr 17 x) (rotr 19 x) (Z.shiftr x 10).

(** The primes below 312: the first 64 primes. *)
Definition is_prime (n : nat) : bool :=
  forallb (fun d => negb (Nat.eqb (n mod d) 0)) (seq 2 (n - 2)).

Definition primes : list Z := map Z.of_nat (filter is_prime (seq 2 310)).

(** The integer cube root, bit by bit from bit [k - 1] down. *)
Fixpoint cube_root_bits (k : nat) (n r : Z) : Z :=
  match k with
  | O => r
  | S k' =>
      let c := r + 2 ^ Z.of_nat k' in
      if c * c * c <=? n then cube_root_bits k' n c
      else cube_root_bits k' n r
  end.

(** "The first thirty-two bits of the fractional parts of the cube roots
    of the first sixty-four prime numbers". *)
Definition roundConstants : list Z :=
  map (fun q => w32 (cube_root_bits 40 (q * 2 ^ 96) 0)) primes.

(** "The first thirty-two bits of the fractional parts of the square roots
    of the first eight prime numbers". *)
Definition initialWords : list Z :=
  map (fun q => w32 (Z.sqrt (q * 2 ^ 64))) (firstn 8 primes).

(** The eight working variables. *)
Record state := mkState {
  sa : Z; sb : Z; sc : Z; sd : Z; se : Z; sf : Z; sg : Z; sh : Z
}.

Definition initialState : state :=
  let h := fun i => nth i initialWords 0 in
  mkState (h 0%nat) (h 1%nat) (h 2%nat) (h 3%nat)
          (h 4%nat) (h 5%nat) (h 6%nat) (h 7%nat).

Definition be32 (b : list Z) : Z :=
  fold_left (fun acc x => acc * 256 + x) (firstn 4 b) 0.

Definition bytes_be (n : nat) (v : Z) : list Z :=
  map (fun i => (v / 256 ^ Z.of_nat i) mod 256) (rev (seq 0 n)).

(** Message schedule: [todo] further words after the reversed list [w]. *)
Fixpoint schedule (todo : nat) (w : list Z) : list Z :=
  match todo with
  | O => rev w
  | S k =>
      let x := w32 (smallSigma1 (nth 1 w 0) + nth 6 w 0
                    + smallSigma0 (nth 14 w 0) + nth 15 w 0) in
      schedule k (x :: w)
  end.

Definition round (s : state) (kw : Z * Z) : state :=
  let t1 := sh s + bigSigma1 (se s) + Ch (se s) (sf s) (sg s)
            + fst kw + snd kw in
  let t2 := bigSigma0 (sa s) + Maj (sa s) (sb s) (sc s) in
  mkState (w32 (t1 + t2)) (sa s) (sb s) (sc s)
          (w32 (sd s + t1)) (se s) (sf s) (sg s).

Definition compress (s : state) (block : list Z) : state :=
  let w16 := map (fun i => be32 (skipn (4 * i) block)) (seq 0 16) in
  let w := schedule 48 (rev w16) in
  let r := fold_left round (combine roundConstants w) s in
  mkState (w32 (sa s + sa r)) (w32 (sb s + sb r)) (w32 (sc s + sc r))
          (w32 (sd s + sd r)) (w32 (se s + se r)) (w32 (sf s + sf r))
          (w32 (sg s + sg r)) (w32 (sh s + sh r)).

Fixpoint blocks (n : nat) (s : state) (msg : list Z) : state :=
  match n with
  | O => s
  | S k => blocks k (compress s (firstn 64 msg)) (skipn 64 msg)
  end.

Definition pad (msg : list Z) : list Z :=
  let l := length msg in
  let zeros := ((64 - (l + 9) mod 64) mod 64)%nat in
  msg ++ [128] ++ repeat 0 zeros ++ bytes_be 8 (8 * Z.of_nat l).

Definition Sum256 (msg : list Z) : list Z :=
  let p := pad msg in
  let s := blocks (length p / 64) initialState p in
  bytes_be 4 (sa s) ++ bytes_be 4 (sb s) ++ bytes_be 4 (sc s)
  ++ bytes_be 4 (sd s) ++ bytes_be 4 (se s) ++ bytes_be 4 (sf s)
  ++ bytes_be 4 (sg s) ++ bytes_be 4 (sh s).

(** *** Base58, the text form of an identifier *)
Definition alphabet : string :=
  "123456789ABCDEFGHJKLMNPQRSTUVWXYZabcdefghijkmnopqrstuvwxyz".

Fixpoint index_of (c : ascii) (s : string) (i : Z) : option Z :=
  match s with
  | EmptyString => None
  | String d rest => if Ascii.eqb c d then Some i else index_of c rest (i + 1)
  end.

(** Digits of [v] in [base], least significant first. *)
Fixpoint digits_le (base : Z) (fuel : nat) (v : Z) : list Z :=
  match fuel with
  | O => []
  | S k => if v <=? 0 then [] else v mod base :: digits_le base k (v / base)
  end.

Fixpoint count_while {A : Type} (p : A -> bool) (l : list A) : nat :=
  match l with
  | x :: rest => if p x then S (count_while p rest) else O
  | [] => O
  end.

Definition base58_Decode (s : string) : option (list Z) :=
  let cs := list_ascii_of_string s in
  let ds := map (fun c => index_of c alphabet 0) cs in
  if forallb (fun d => match d with Some _ => true | None => false end) ds
  then
    let v := fold_left (fun acc d => acc * 58 + match d with
                                                | Some x => x
                                                | None => 0
                                                end) ds 0 in
    let zeros := count_while (fun c => Ascii.eqb c "1") cs in
    Some (repeat 0 zeros ++ rev (digits_le 256 (length cs) v))
  else None.

Definition base58_Encode (b : list Z) : string :=
  let v := fold_left (fun acc x => acc * 256 + x) b 0 in
  let zeros := count_while (fun x => x =? 0) b in
  let ds := rev (digits_le 58 (2 * length b) v) in
  string_of_list_ascii
    (repeat "1"%char zeros
     ++ map (fun d => match String.get (Z.to_nat d) alphabet with
                      | Some c => c
                      | None => "1"%char
                      end) ds).

(** Modelled from the spec: the checksum is not among the sources;
    "little-endian sum of all preceding bytes modulo 2^16". *)
Definition CalculateChecksum (typ genesis : list Z) : list Z :=
  let s := fold_left Z.add (typ ++ genesis) 0 mod 2 ^ 16 in
  [s mod 256; s / 256].

(** Modelled from the spec: "recomputes and compares". *)
Definition CheckChecksum (id : list Z) : bool :=
  bytes_Equal (CalculateChecksum (sub id 0 2) (sub id 2 29)) (sub id 29 31).

(** Modelled from the spec: "decodes the textual (checksum-bearing)
    representation into raw bytes; fails if decoding length is wrong". *)
Definition IDFromString (s : string) : list Z * option error :=
  match base58_Decode s with
  | None => (ID_zero, Some (New "invalid base58 string"))
  | Some b =>
      if Nat.eqb (length b) 31 then (b, None)
      else (ID_zero, Some (New "IDFromBytes error: byte array incorrect length"))
  end.

Fixpoint split_on (sep : ascii) (cur : string) (s : string) : list string :=
  match s with
  | EmptyString => [cur]
  | String c rest =>
      if Ascii.eqb c sep then cur :: split_on sep EmptyString rest
      else split_on sep (cur ++ String c EmptyString)%string rest
  end.

(** Modelled from the spec: "Parse(string) -> {schema, method, idStrings:
    ordered sequence of 1-3 segments}, error<InvalidDID>". *)
Definition Parse (s : string) : option DID * option error :=
  match split_on ":" EmptyString s with
  | schema :: method :: seg :: segs =>
      if String.eqb schema DIDSchema && negb (String.eqb method "")
         && (length segs <=? 2)%nat
      then (Some (mkDID method (strings_Join (seg :: segs) ":") (seg :: segs)
                        [] "" [] "" ""), None)
      else (None, Some (New "invalid DID"))
  | _ => (None, Some (New "invalid DID"))
  end.

(** The string form [did:<method>:<segments>]. *)
Definition DID_String (did : DID) : string :=
  strings_Join (DIDSchema :: Method did :: IDStrings did) ":".

(** The instance; [range] visits the entries of a literal last to first. *)
Definition externals : Externals :=
  mkExternals (fun A l => rev l) CalculateChecksum CheckChecksum
              IDFromString base58_Encode Parse DID_String Sum256.

End Reference.

(** ** Package [eth]: the client of smart contracts ([eth/client.go])

    Calls of the logger are left out: they do not touch what the
    functions return. *)
Module Eth.
Import Utils.

(** Errors: the three package-level variables, an error of a
    collaborator (the Ethereum client, the key store, a callback), and the
    two wrappings [fmt.Errorf(errStrDeploy, name, err)] and
    [fmt.Errorf(errStrWaitReceipt, name, err)]. *)
Inductive error :=
| ErrAccountNil
| ErrReceiptStatusFailed
| ErrReceiptNotRecieved
| Foreign (msg : string)
| ErrorfDeploy (name : string) (inner : error)
| ErrorfWaitReceipt (name : string) (inner : error).

(** [err.Error()] *)
Fixpoint Error (err : error) : string :=
  match err with
  | ErrAccountNil =>
      "Authorized calls can't be made when the account is nil"
  | ErrReceiptStatusFailed => "receipt status is failed"
  | ErrReceiptNotRecieved => "receipt not available"
  | Foreign msg => msg
  | ErrorfDeploy name inner =>
      "deployment of " ++ name ++ " failed: " ++ Error inner
  | ErrorfWaitReceipt name inner =>
      "wait receipt of " ++ name ++ " deploy failed: " ++ Error inner
  end%string.

(** [errors.Unwrap] and [errors.Is] for a package-level [target]. *)
Definition is_sentinel (err target : error) : bool :=
  match err, target with
  | ErrAccountNil, ErrAccountNil
  | ErrReceiptStatusFailed, ErrReceiptStatusFailed
  | ErrReceiptNotRecieved, ErrReceiptNotRecieved => true
  | _, _ => false
  end.

Fixpoint errors_Is (err target : error) : bool :=
  match err with
  | ErrorfDeploy _ inner | ErrorfWaitReceipt _ inner =>
      errors_Is inner target
  | _ => is_sentinel err target
  end.

(** [types.ReceiptStatusFailed] and [types.ReceiptStatusSuccessful] of
    go-ethereum. *)
Definition ReceiptStatusFailed : Z := 0.
Definition ReceiptStatusSuccessful : Z := 1.

Section WithWorld.

(** The types of go-ethereum the client handles without looking inside:
    the connection, accounts, the key store, addresses, transactions and
    the rest of a receipt and of the transaction options. *)
Variables EthClient Account KeyStore Address Transaction : Type.
Variables ReceiptBody Signer BoundContract : Type.

(** [common.Address{}] *)
Variable zeroAddress : Address.

(** [types.Receipt]: its status and the rest. *)
Record Receipt := mkReceipt { Status : Z; receiptBody : ReceiptBody }.

(** [bind.TransactOpts]: the fields [CallAuth] sets, and the rest. *)
Record TransactOpts := mkTransactOpts {
  optsSigner : Signer;
  Value : option Z;
  GasPrice : option Z;
  GasLimit : Z
}.

(** [type Client struct] *)
Record Client := mkClient {
  client : EthClient;
  account : option Account;
  ks : KeyStore;
  ReceiptTimeout : Z
}.

(** [60 * time.Second] *)
Definition defaultReceiptTimeout : Z := 60 * GoTime.Second.

(** [NewClient] *)
Definition NewClient (cl : EthClient) (acc : option Account)
           (keys : KeyStore) : Client :=
  mkClient cl acc keys defaultReceiptTimeout.

(** [Account] *)
Definition Client_Account (c : Client) : option Account := account c.

(** What the node and the key store answer: the suggested gas price, the
    transactor of an account, the answer to the [i]-th request for the
    receipt of a transaction, and the reading [time.Since(start)] at the
    [i]-th test of the loop of [WaitReceipt]. *)
Variable SuggestGasPrice : EthClient -> option Z * option error.
Variable NewKeyStoreTransactor :
  KeyStore -> Account -> option TransactOpts * option error.
Variable TransactionReceipt :
  EthClient -> Transaction -> nat -> option Receipt * option error.
Variable sinceStart : nat -> Z.

(** [CallAuth].  The callback [fn] may write to variables it has
    captured; their state is [S], threaded through the call. *)
Definition CallAuth {S : Type} (c : Client) (gasLimit : Z)
           (fn : EthClient -> TransactOpts -> S ->
                 S * (option Transaction * option error))
           (s : S) : outcome (S * (option Transaction * option error)) :=
  match account c with
  | None => Returns (s, (None, Some ErrAccountNil))
  | Some acc =>
      let '(gasPrice, err) := SuggestGasPrice (client c) in
      match err with
      | Some e => Returns (s, (None, Some e))
      | None =>
      match gasPrice with
      | None => Panics
      | Some gasPrice =>
      let inc := gasPrice in
      let inc := inc / 100 in
      let gasPrice := gasPrice + inc in
      let '(auth, err) := NewKeyStoreTransactor (ks c) acc in
      match err with
      | Some e => Returns (s, (None, Some e))
      | None =>
      match auth with
      | None => Panics
      | Some auth =>
          let auth :=
            mkTransactOpts (optsSigner auth) (Some 0) (Some gasPrice)
                           (if gasLimit =? 0 then 300000 else gasLimit) in
          Returns (fn (client c) auth s)
      end
      end
      end
      end
  end.

(** [Call] *)
Definition Call {A : Type} (c : Client) (fn : EthClient -> A) : A :=
  fn (client c).

(** The loop of [WaitReceipt] before its [i]-th test, with the current
    [receipt] and [err]; a pass with no receipt sleeps 200 ms. *)
Fixpoint WaitReceipt_loop (fuel : nat) (c : Client) (tx : Transaction)
         (i : nat) (receipt : option Receipt) (err : option error)
  : outcome (option Receipt * option error) :=
  match receipt with
  | Some _ => Returns (receipt, err)
  | None =>
      if sinceStart i <? ReceiptTimeout c then
        match fuel with
        | O => OutOfFuel
        | S fuel' =>
            let '(receipt, err) := TransactionReceipt (client c) tx i in
            WaitReceipt_loop fuel' c tx (S i) receipt err
        end
      else Returns (receipt, err)
  end.

(** [WaitReceipt]; a nil transaction panics at [tx.Hash()]. *)
Definition WaitReceipt (fuel : nat) (c : Client) (tx : option Transaction)
  : outcome (option Receipt * option error) :=
  match tx with
  | None => Panics
  | Some tx =>
      match WaitReceipt_loop fuel c tx 0 None None with
      | Returns (receipt, err) =>
          match receipt with
          | Some r =>
              if Status r =? ReceiptStatusFailed
              then Returns (receipt, Some ErrReceiptStatusFailed)
              else Returns (receipt, err)
          | None => Returns (receipt, Some ErrReceiptNotRecieved)
          end
      | Panics => Panics
      | OutOfFuel => OutOfFuel
      end
  end.

(** [type ContractData struct] *)
Record ContractData := mkContractData {
  cdAddress : Address;
  cdTx : option Transaction;
  cdReceipt : option Receipt
}.

(** [Deploy].  The callback passed to [CallAuth] writes
    [contractData.Address]. *)
Definition Deploy (fuel : nat) (c : Client) (name : string)
           (fn : EthClient -> TransactOpts ->
                 Address * option Transaction * BoundContract * option error)
  : outcome (ContractData * option error) :=
  let contractData := mkContractData zeroAddress None None in
  match CallAuth c 1000000
          (fun cl auth (cd : ContractData) =>
             let '(addr, tx, _, err) := fn cl auth in
             match err with
             | Some e => (cd, (None, Some e))
             | None =>
                 (mkContractData addr (cdTx cd) (cdReceipt cd), (tx, None))
             end)
          contractData with
  | Returns (contractData, (tx, Some err)) =>
      Returns (contractData, Some (ErrorfDeploy name err))
  | Returns (contractData, (tx, None)) =>
      match tx with
      | None => Panics
      | Some _ =>
          let contractData :=
            mkContractData (cdAddress contractData) tx
                           (cdReceipt contractData) in
          match WaitReceipt fuel c tx with
          | Returns (receipt, Some err) =>
              Returns (contractData, Some (ErrorfWaitReceipt name err))
          | Returns (receipt, None) =>
              Returns (mkContractData (cdAddress contractData)
                                      (cdTx contractData) receipt, None)
          | Panics => Panics
          | OutOfFuel => OutOfFuel
          end
      end
  | Panics => Panics
  | OutOfFuel => OutOfFuel
  end.

End WithWorld.

End Eth.

(** ** Vocabulary of the statements *)

(** The blockchain [BuildDIDType] looks up: [NoChain] stands for [ReadOnly]. *)
Definition normalized (blockchain : Blockchain) : Blockchain :=
  if String.eqb blockchain NoChain then ReadOnly else blockchain.

(** [method] is a key of [knownMethods]. *)
Definition known_method (method : Z) : Prop :=
  In method (map fst Core.knownMethods).

(** The table of [method] maps the pair [flag] to the byte [sb]. *)
Definition table_entry (method : Z) (flag : DIDNetworkFlag) (sb : Z) : Prop :=
  exists networks,
    In (method, networks) Core.DIDMethodNetwork /\ In (flag, sb) networks.

(** The same for the codec with methods named by strings. *)
Definition legacy_known_method (method : string) : Prop :=
  In method (map fst CoreLegacy.DIDMethodByte).

Definition legacy_table_entry (method : string) (flag : DIDNetworkFlag)
           (sb : Z) : Prop :=
  exists networks,
    In (method, networks) CoreLegacy.DIDMethodNetwork /\ In (flag, sb) networks.

(** No known method prints as the method name of [did]. *)
Definition unknown_method_DID (did : DID) : Prop :=
  forall method, known_method method ->
                 Core.DIDMethod_String method <> Method did.

(** The externals [E], with [range] visiting maps in the order [order]. *)
Definition with_rangeOrder (E : Externals)
           (order : forall A : Type, list A -> list A) : Externals :=
  mkExternals order (CalculateChecksum E) (CheckChecksum E) (IDFromString E)
              (ID_String E) (did_Parse E) (DID_String E) (sha256_Sum256 E).

(** The segments of a DID: the last one, and the one at index [i]. *)
Definition last_segment (did : DID) : string :=
  nth (length (IDStrings did) - 1) (IDStrings did) EmptyString.

Definition segment (did : DID) (i : nat) : string :=
  nth i (IDStrings did) EmptyString.

(** A [float64] that is zero, negative, or not a number. *)
Definition not_positive (f : GoTime.float64) : Prop :=
  match f with
  | S754_finite false _ _ | S754_infinity false => False
  | _ => True
  end.

(** The data after [k] calls of [IncrementNonce]. *)
Definition nonce_steps {D : Type} (IncrementNonce : D -> D) (k : nat)
           (data : D) : D :=
  Nat.iter k IncrementNonce data.

(** The hash [PoW] checks for [data]: [HashBytes] of its JSON form. *)
Definition hash_of {D : Type} (json_Marshal : D -> list Z * option error)
           (HashBytes : list Z -> Utils.Hash) (data : D) : Utils.Hash :=
  HashBytes (fst (json_Marshal data)).

(** ** Sample data *)

(** The identifier of type [{0x01, 0x11}] (iden3, polygon, main) and zero
    genesis, under the reference checksum, and its text form. *)
Definition id_iden3_polygon_main : ID :=
  NewID Reference.externals [0x01; 0x11] (repeat 0 27).

Definition text_iden3_polygon_main : string :=
  Eval vm_compute in Reference.base58_Encode id_iden3_polygon_main.

Definition did_of (method : string) (segments : list string) : DID :=
  mkDID method (strings_Join segments ":") segments [] "" [] "" "".

(** A DID of the unregistered method [foo] around that identifier. *)
Definition did_foo : DID :=
  did_of "foo" ["polygon"; "main"; text_iden3_polygon_main]%string.

(** A DID of method [iden3] that names the chain [eth] around it. *)
Definition did_iden3_eth : DID :=
  did_of "iden3" ["eth"; "main"; text_iden3_polygon_main]%string.

(** An identifier of the other-method type [{0xFF, 0xFF}]. *)
Definition id_other : ID :=
  NewID Reference.externals [0xFF; 0xFF] (repeat 7 27).

(** A hash that starts with the byte [0x01]: seven leading zero bits, no
    leading zero byte. *)
Definition hash_01 : Utils.Hash := Utils.mkHash (1 :: repeat 0 31) eq_refl.

(** A hash that starts with two zero bytes followed by [0x80]. *)
Definition hash_0000_80 : Utils.Hash :=
  Utils.mkHash (0 :: 0 :: 128 :: repeat 7 29) eq_refl.

(** A clock reading: 1700000000 s and 500 ns after the Unix epoch. *)
Definition sample_now : GoTime.Time := GoTime.Unix 1700000000 500.

(** Proof-of-work data for evaluation: a counter, printed as four
    big-endian bytes and hashed with the reference SHA-256. *)
Definition counter_Marshal (n : nat) : list Z * option error :=
  (Reference.bytes_be 4 (Z.of_nat n), None).

Definition hash_zero : Utils.Hash := Utils.mkHash (repeat 0 32) eq_refl.

Definition sha_HashBytes (b : list Z) : Utils.Hash :=
  match is_bytes 32 (Reference.Sum256 b) as c
        return (is_bytes 32 (Reference.Sum256 b) = c -> Utils.Hash) with
  | true => fun H => Utils.mkHash (Reference.Sum256 b) H
  | false => fun _ => hash_zero
  end eq_refl.

(** A node for evaluation: it suggests the gas price 1000, knows the
    receipt (status successful) from the fourth request on, and every
    pass of the waiting loop takes 200 ms and 7 ns. *)
Definition sample_price (_ : unit) : option Z * option Eth.error :=
  (Some 1000, None).

Definition sample_transactor (_ : unit) (_ : nat)
  : option (Eth.TransactOpts unit) * option Eth.error :=
  (Some (Eth.mkTransactOpts unit tt None None 0), None).

Definition sample_receipts (_ : unit) (_ : nat) (i : nat)
  : option (Eth.Receipt unit) * option Eth.error :=
  if (i <? 3)%nat then (None, Some (Eth.Foreign "not found"))
  else (Some (Eth.mkReceipt unit Eth.ReceiptStatusSuccessful tt), None).

Definition sample_clock (i : nat) : Z := 200000007 * Z.of_nat i.

Definition sample_client : Eth.Client unit nat unit :=
  Eth.NewClient unit nat unit tt (Some 5%nat) tt.

(** * Properties *)

(** ** Proof of work *)
Section ProofOfWork.
Import Utils.

Lemma is_bytes_length n l : is_bytes n l = true -> length l = n.
Proof.
  unfold is_bytes; intros H; apply andb_prop in H as [H _].
  now apply Nat.eqb_eq.
Qed.

Lemma is_bytes_forall n l :
  is_bytes n l = true -> forall b, In b l -> 0 <= b < 256.
Proof.
  unfold is_bytes; intros H b Hb; apply andb_prop in H as [_ H].
  rewrite forallb_forall in H; specialize (H b Hb).
  unfold is_byte in H; lia.
Qed.

Lemma slice_prefix {A : Type} (s : list A) (n : Z) :
  0 <= n <= Z.of_nat (length s) ->
  slice s 0 n = Some (firstn (Z.to_nat n) s).
Proof.
  intros Hn; unfold slice.
  replace ((0 <=? 0) && (0 <=? n) && (n <=? Z.of_nat (length s)))
    with true by (symmetry; rewrite !andb_true_iff; lia).
  now rewrite Z.sub_0_r.
Qed.

Lemma slice_out_of_range {A : Type} (s : list A) (n : Z) :
  n < 0 \/ Z.of_nat (length s) < n -> slice s 0 n = None.
Proof.
  intros Hn; unfold slice.
  replace ((0 <=? 0) && (0 <=? n) && (n <=? Z.of_nat (length s)))
    with false; [reflexivity|].
  symmetry; rewrite !andb_false_iff; lia.
Qed.

Lemma Bytes_length (hash : Hash) : length (Bytes hash) = 32%nat.
Proof. exact (is_bytes_length _ _ (Bytes_wf hash)). Qed.

Lemma LeadingZeroBytes_nonneg l : 0 <= LeadingZeroBytes l.
Proof.
  induction l as [|c t IHt]; cbn [LeadingZeroBytes];
    [lia | destruct (c =? 0); lia].
Qed.

(** Comparing a prefix with as many zero bytes counts leading zero bytes. *)
Lemma prefix_zero_iff (l : list byte) : forall (n m : nat),
  (n <= length l)%nat -> (n <= m)%nat ->
  bytes_Equal (firstn n l) (firstn n (repeat 0 m))
  = (Z.of_nat n <=? LeadingZeroBytes l).
Proof.
  induction l as [|b t IH]; intros n m Hn Hm.
  - simpl in Hn. assert (n = O) by lia; subst n. reflexivity.
  - destruct n as [|n].
    + cbn [firstn bytes_Equal]. symmetry; apply Z.leb_le.
      apply (LeadingZeroBytes_nonneg (b :: t)).
    + destruct m as [|m]; [lia|].
      cbn [firstn repeat bytes_Equal LeadingZeroBytes].
      simpl in Hn.
      rewrite (IH n m) by lia.
      pose proof (LeadingZeroBytes_nonneg t) as Ht.
      destruct (b =? 0) eqn:Hb; cbn [andb].
      * destruct (Z.of_nat n <=? LeadingZeroBytes t) eqn:E;
          symmetry; [apply Z.leb_le | apply Z.leb_gt];
          [apply Z.leb_le in E | apply Z.leb_gt in E]; lia.
      * symmetry; apply Z.leb_gt; lia.
Qed.

Lemma lz_byte_table :
  forallb (fun n => let b := Z.of_nat n in
                    (b =? 0) || ((0 <=? lz_byte 8 b) && (lz_byte 8 b <? 8)))
          (seq 0 256) = true.
Proof. vm_compute; reflexivity. Qed.

Lemma lz_byte_nonzero b :
  0 <= b < 256 -> b <> 0 -> 0 <= lz_byte 8 b < 8.
Proof.
  intros Hb Hnz.
  pose proof lz_byte_table as T; rewrite forallb_forall in T.
  specialize (T (Z.to_nat b)).
  cbv zeta in T; rewrite Z2Nat.id in T by lia.
  assert (Hin : In (Z.to_nat b) (seq 0 256)) by (apply in_seq; lia).
  apply T in Hin. apply orb_prop in Hin as [H|H]; [lia|].
  apply andb_prop in H as [H1 H2]. lia.
Qed.

(** The bit count lies within one byte of eight times the byte count. *)
Lemma LeadingZeroBits_bytes l :
  (forall b, In b l -> 0 <= b < 256) ->
  8 * LeadingZeroBytes l <= LeadingZeroBits l < 8 * LeadingZeroBytes l + 8.
Proof.
  induction l as [|b t IH]; intros Hl;
    [cbn [LeadingZeroBits LeadingZeroBytes]; lia|].
  cbn [LeadingZeroBits LeadingZeroBytes].
  destruct (b =? 0) eqn:Hb.
  - assert (forall c, In c t -> 0 <= c < 256) by (intros; apply Hl; now right).
    specialize (IH H); lia.
  - assert (0 <= lz_byte 8 b < 8)
      by (apply lz_byte_nonzero; [apply Hl; now left | lia]).
    lia.
Qed.

Lemma CheckPoW_in_range (hash : Hash) (difficulty : Z) :
  0 <= difficulty <= 32 ->
  CheckPoW hash difficulty
  = Some (difficulty <=? LeadingZeroBytes (Bytes hash)).
Proof.
  intros Hd; unfold CheckPoW.
  pose proof (Bytes_length hash) as Hlen.
  rewrite !slice_prefix by (rewrite ?Hlen; unfold empty;
                            rewrite ?repeat_length; lia).
  unfold empty.
  rewrite (prefix_zero_iff (Bytes hash) (Z.to_nat difficulty) 32) by lia.
  rewrite Z2Nat.id by lia.
  now destruct (difficulty <=? LeadingZeroBytes (Bytes hash)).
Qed.

Lemma CheckPoW_panics (hash : Hash) (difficulty : Z) :
  difficulty < 0 \/ 32 < difficulty -> CheckPoW hash difficulty = None.
Proof.
  intros Hd; unfold CheckPoW.
  rewrite slice_out_of_range; [reflexivity|].
  rewrite (Bytes_length hash); lia.
Qed.

(** C1, as stated, fails: the hash [01 00 .. 00] has seven leading zero
    bits, so a check of one leading zero bit would accept it at difficulty
    1, and [CheckPoW] rejects it. *)
Lemma CheckPoW_not_leading_zero_bits :
  CheckPoW hash_01 1 = Some false /\
  (1 <=? LeadingZeroBits (Bytes hash_01)) = true /\
  LeadingZeroBits (Bytes hash_01) = 7.
Proof. repeat split; vm_compute; reflexivity. Qed.

(** C1, amended: for a difficulty between 0 and 32, [CheckPoW] returns
    true if and only if the leading [difficulty] BYTES of the hash are
    zero, that is, if and only if the hash has at least [8 * difficulty]
    leading zero bits. *)
Theorem CheckPoW_leading_zero_bytes (hash : Hash) (difficulty : Z) :
  0 <= difficulty <= 32 ->
  CheckPoW hash difficulty
  = Some (difficulty <=? LeadingZeroBytes (Bytes hash)) /\
  CheckPoW hash difficulty
  = Some (8 * difficulty <=? LeadingZeroBits (Bytes hash)).
Proof.
  intros Hd. rewrite (CheckPoW_in_range hash difficulty Hd).
  split; [reflexivity|]. f_equal.
  pose proof (LeadingZeroBits_bytes (Bytes hash)
                (is_bytes_forall _ _ (Bytes_wf hash))) as B.
  destruct (difficulty <=? LeadingZeroBytes (Bytes hash)) eqn:E;
    symmetry; [apply Z.leb_le | apply Z.leb_gt];
    [apply Z.leb_le in E | apply Z.leb_gt in E]; lia.
Qed.

Lemma CheckPoW_leading_zero_bytes_witness :
  0 <= 2 <= 32 /\
  CheckPoW hash_0000_80 2 = Some true /\
  CheckPoW hash_0000_80 2
  = Some (16 <=? LeadingZeroBits (Bytes hash_0000_80)).
Proof.
  assert (H : 0 <= 2 <= 32) by lia.
  split; [exact H|].
  exact (CheckPoW_leading_zero_bytes hash_0000_80 2 H).
Defined.

(** C9: [CheckPoW] panics (slice bounds out of range) exactly when the
    difficulty is negative or exceeds 32, the length of the hash in bytes;
    for a difficulty between 0 and 32 it returns a boolean. *)
Theorem CheckPoW_total_iff_in_range (hash : Hash) (difficulty : Z) :
  (CheckPoW hash difficulty = None <-> difficulty < 0 \/ 32 < difficulty) /\
  ((exists b, CheckPoW hash difficulty = Some b) <-> 0 <= difficulty <= 32).
Proof.
  destruct (Z_lt_dec difficulty 0) as [Hn|Hn];
    [|destruct (Z_lt_dec 32 difficulty) as [Hb|Hb]].
  - rewrite (CheckPoW_panics hash difficulty) by lia.
    split; split; intros H; try lia; try reflexivity.
    destruct H as [b H]; discriminate.
  - rewrite (CheckPoW_panics hash difficulty) by lia.
    split; split; intros H; try lia; try reflexivity.
    destruct H as [b H]; discriminate.
  - rewrite (CheckPoW_in_range hash difficulty) by lia.
    split; split; intros H; try lia; try discriminate.
    eexists; reflexivity.
Qed.

End ProofOfWork.

(** ** The type table *)
Section TypeTable.

Lemma map_get_In {K V : Type} (eqb : K -> K -> bool)
      (eqb_eq : forall a b, eqb a b = true <-> a = b)
      (m : gomap K V) (k : K) (v : V) :
  NoDup (map fst m) -> (map_get eqb m k = Some v <-> In (k, v) m).
Proof.
  induction m as [|[k' v'] m IH]; intros Hnd; cbn [map_get].
  - split; [discriminate | intros []].
  - inversion Hnd as [|? ? Hnotin Hnd']; subst.
    destruct (eqb k' k) eqn:Ek.
    + apply eqb_eq in Ek; subst k'. split.
      * intros [= ->]; now left.
      * intros [[= ->]|Hin]; [reflexivity|].
        exfalso; apply Hnotin. now apply (in_map fst) in Hin.
    + rewrite (IH Hnd'). split; [now right|].
      intros [[= -> ->]|Hin]; [|exact Hin].
      assert (eqb k k = true) by now apply eqb_eq.
      congruence.
Qed.

Lemma map_get_None {K V : Type} (eqb : K -> K -> bool)
      (eqb_eq : forall a b, eqb a b = true <-> a = b)
      (m : gomap K V) (k : K) :
  map_get eqb m k = None <-> ~ In k (map fst m).
Proof.
  induction m as [|[k' v'] m IH]; cbn [map_get map fst In].
  - split; [intros _ [] | reflexivity].
  - destruct (eqb k' k) eqn:Ek.
    + apply eqb_eq in Ek; subst. split; [discriminate|]. intros H; exfalso; auto.
    + rewrite IH. split; [|tauto].
      intros H [->|Hin]; [|tauto].
      assert (eqb k k = true) by now apply eqb_eq.
      congruence.
Qed.

Lemma DIDNetworkFlag_eqb_eq (a b : DIDNetworkFlag) :
  DIDNetworkFlag_eqb a b = true <-> a = b.
Proof.
  unfold DIDNetworkFlag_eqb; destruct a as [ab an], b as [bb bn]; cbn.
  rewrite andb_true_iff, !String.eqb_eq.
  split; [intros [-> ->]; reflexivity | intros [= -> ->]; auto].
Qed.

(** Along any iteration of a table whose values are pairwise distinct, the
    scan for a value ends on the one key that carries it. *)
Lemma find_value_unique {K : Type} (l : list (K * Z)) (k : K) (v : Z) :
  NoDup (map snd l) -> In (k, v) l -> range_find_value l v = Some k.
Proof.
  unfold range_find_value.
  induction l as [|[k' v'] l IH]; intros Hnd Hin; [destruct Hin|].
  inversion Hnd as [|? ? Hnotin Hnd']; subst.
  cbn [find snd]. destruct (v' =? v) eqn:Ev.
  - apply Z.eqb_eq in Ev; subst v'.
    destruct Hin as [[= ->]|Hin]; [reflexivity|].
    exfalso; apply Hnotin. now apply (in_map snd) in Hin.
  - destruct Hin as [[= -> ->]|Hin]; [rewrite Z.eqb_refl in Ev; discriminate|].
    now apply IH.
Qed.

Lemma find_value_absent {K : Type} (l : list (K * Z)) (v : Z) :
  ~ In v (map snd l) -> range_find_value l v = None.
Proof.
  unfold range_find_value.
  induction l as [|[k' v'] l IH]; intros Hnotin; [reflexivity|].
  cbn [find snd]. destruct (v' =? v) eqn:Ev.
  - apply Z.eqb_eq in Ev; subst. exfalso; apply Hnotin; now left.
  - apply IH. intros H; apply Hnotin; now right.
Qed.

Lemma range_find_value_any_order {K : Type} (E : Externals)
      (l : list (K * Z)) (k : K) (v : Z) :
  ExternalsOK E -> NoDup (map snd l) -> In (k, v) l ->
  range_find_value (rangeOrder E _ l) v = Some k.
Proof.
  intros HE Hnd Hin.
  pose proof (rangeOrder_perm E HE _ l) as P.
  apply find_value_unique.
  - apply (Permutation_NoDup (l := map snd l)); [|exact Hnd].
    apply Permutation_map, Permutation_sym, P.
  - apply (Permutation_in (l := l)); [apply Permutation_sym, P | exact Hin].
Qed.

Lemma range_find_value_absent_any_order {K : Type} (E : Externals)
      (l : list (K * Z)) (v : Z) :
  ExternalsOK E -> ~ In v (map snd l) ->
  range_find_value (rangeOrder E _ l) v = None.
Proof.
  intros HE Hnotin.
  pose proof (rangeOrder_perm E HE _ l) as P.
  apply find_value_absent. intros H; apply Hnotin.
  apply (Permutation_in (l := map snd (rangeOrder E _ l))); [|exact H].
  apply Permutation_map, P.
Qed.

Ltac solve_NoDup :=
  repeat (apply NoDup_cons; [cbn; intuition (try discriminate; try lia)|]);
  apply NoDup_nil.

Lemma Core_methods_NoDup : NoDup (map fst Core.knownMethods).
Proof. cbn. solve_NoDup. Qed.

Lemma Core_table_keys_NoDup : NoDup (map fst Core.DIDMethodNetwork).
Proof. cbn. solve_NoDup. Qed.

Lemma Core_tables_NoDup method networks :
  In (method, networks) Core.DIDMethodNetwork ->
  NoDup (map fst networks) /\ NoDup (map snd networks).
Proof.
  intros [H|[H|[H|[]]]]; injection H as <- <-;
    split; cbn; solve_NoDup.
Qed.

Lemma table_entry_lookup method flag sb :
  table_entry method flag sb <->
  exists networks,
    map_get Z.eqb Core.DIDMethodNetwork method = Some networks
    /\ map_get DIDNetworkFlag_eqb networks flag = Some sb.
Proof.
  unfold table_entry; split; intros (networks & H1 & H2); exists networks.
  - split.
    + now apply (map_get_In Z.eqb Z.eqb_eq _ _ _ Core_table_keys_NoDup).
    + apply (map_get_In _ DIDNetworkFlag_eqb_eq);
        [apply (Core_tables_NoDup method networks H1) | exact H2].
  - apply (map_get_In Z.eqb Z.eqb_eq _ _ _ Core_table_keys_NoDup) in H1.
    split; [exact H1|].
    apply (map_get_In _ DIDNetworkFlag_eqb_eq) in H2;
      [exact H2 | apply (Core_tables_NoDup method networks H1)].
Qed.

Lemma known_method_lookup method :
  known_method method <->
  map_get Z.eqb Core.knownMethods method = Some tt.
Proof.
  unfold known_method. rewrite (map_get_In Z.eqb Z.eqb_eq _ _ _ Core_methods_NoDup).
  rewrite in_map_iff. split.
  - intros ([k []] & <- & Hin); exact Hin.
  - intros Hin; exists (method, tt); auto.
Qed.

Lemma known_method_has_table method :
  known_method method ->
  exists networks, map_get Z.eqb Core.DIDMethodNetwork method = Some networks.
Proof.
  intros [<-|[<-|[]]]; eexists; reflexivity.
Qed.

(** What [BuildDIDType] returns, case by case. *)
Lemma BuildDIDType_cases method blockchain network :
  let flag := mkFlag (normalized blockchain) network in
  (~ known_method method /\
   Core.BuildDIDType method blockchain network
   = ([0; 0], Some (Var ErrDIDMethodNotSupported)))
  \/ (known_method method /\ (forall sb, ~ table_entry method flag sb) /\
      Core.BuildDIDType method blockchain network
      = ([0; 0], Some (Var ErrNetworkNotSupportedForDID)))
  \/ (known_method method /\ exists sb, table_entry method flag sb /\
      Core.BuildDIDType method blockchain network = ([method; sb], None)).
Proof.
  intros flag. unfold Core.BuildDIDType.
  destruct (map_get Z.eqb Core.knownMethods method) as [[]|] eqn:Hk.
  - apply known_method_lookup in Hk. right.
    destruct (known_method_has_table method Hk) as [networks Hn].
    rewrite Hn. fold (normalized blockchain). fold flag.
    destruct (map_get DIDNetworkFlag_eqb networks flag) as [sb|] eqn:Hf.
    + right. split; [exact Hk|]. exists sb. split; [|reflexivity].
      apply table_entry_lookup. now exists networks.
    + left. split; [exact Hk|]. split; [|reflexivity].
      intros sb Hsb. apply table_entry_lookup in Hsb as (n' & H1 & H2).
      congruence.
  - left. split; [|reflexivity].
    intros H. apply known_method_lookup in H. congruence.
Qed.

Lemma Legacy_methods_NoDup : NoDup (map fst CoreLegacy.DIDMethodByte).
Proof. cbn. solve_NoDup. Qed.

Lemma Legacy_table_keys_NoDup : NoDup (map fst CoreLegacy.DIDMethodNetwork).
Proof. cbn. solve_NoDup. Qed.

Lemma Legacy_tables_NoDup method networks :
  In (method, networks) CoreLegacy.DIDMethodNetwork ->
  NoDup (map fst networks) /\ NoDup (map snd networks).
Proof.
  intros [H|[H|[]]]; injection H as <- <-; split; cbn; solve_NoDup.
Qed.

Lemma legacy_table_entry_lookup method flag sb :
  legacy_table_entry method flag sb <->
  exists networks,
    map_get String.eqb CoreLegacy.DIDMethodNetwork method = Some networks
    /\ map_get DIDNetworkFlag_eqb networks flag = Some sb.
Proof.
  unfold legacy_table_entry; split; intros (networks & H1 & H2);
    exists networks.
  - split.
    + now apply (map_get_In String.eqb String.eqb_eq _ _ _
                            Legacy_table_keys_NoDup).
    + apply (map_get_In _ DIDNetworkFlag_eqb_eq);
        [apply (Legacy_tables_NoDup method networks H1) | exact H2].
  - apply (map_get_In String.eqb String.eqb_eq _ _ _
                      Legacy_table_keys_NoDup) in H1.
    split; [exact H1|].
    apply (map_get_In _ DIDNetworkFlag_eqb_eq) in H2;
      [exact H2 | apply (Legacy_tables_NoDup method networks H1)].
Qed.

Lemma legacy_known_method_has_table method :
  legacy_known_method method ->
  exists networks,
    map_get String.eqb CoreLegacy.DIDMethodNetwork method = Some networks.
Proof.
  intros [<-|[<-|[]]]; eexists; reflexivity.
Qed.

Lemma Legacy_BuildDIDType_cases method blockchain network :
  let flag := mkFlag (normalized blockchain) network in
  (~ legacy_known_method method /\
   CoreLegacy.BuildDIDType method blockchain network
   = ([0; 0], Some (Var ErrDIDMethodNotSupported)))
  \/ (legacy_known_method method /\
      (forall sb, ~ legacy_table_entry method flag sb) /\
      CoreLegacy.BuildDIDType method blockchain network
      = ([0; 0], Some (Var ErrNetworkNotSupportedForDID)))
  \/ (exists fb sb,
         In (method, fb) CoreLegacy.DIDMethodByte /\
         legacy_table_entry method flag sb /\
         CoreLegacy.BuildDIDType method blockchain network
         = ([fb; sb], None)).
Proof.
  intros flag. unfold CoreLegacy.BuildDIDType.
  destruct (map_get String.eqb CoreLegacy.DIDMethodByte method)
    as [fb|] eqn:Hk.
  - apply (map_get_In String.eqb String.eqb_eq _ _ _ Legacy_methods_NoDup)
      in Hk.
    assert (Hkn : legacy_known_method method)
      by (unfold legacy_known_method; now apply (in_map fst) in Hk).
    right.
    destruct (legacy_known_method_has_table method Hkn) as [networks Hn].
    rewrite Hn. fold (normalized blockchain). fold flag.
    destruct (map_get DIDNetworkFlag_eqb networks flag) as [sb|] eqn:Hf.
    + right. exists fb, sb. split; [exact Hk|]. split; [|reflexivity].
      apply legacy_table_entry_lookup. now exists networks.
    + left. split; [exact Hkn|]. split; [|reflexivity].
      intros sb Hsb.
      apply legacy_table_entry_lookup in Hsb as (n' & H1 & H2).
      congruence.
  - left. split; [|reflexivity].
    apply (map_get_None String.eqb String.eqb_eq) in Hk. exact Hk.
Qed.

(** C6: [BuildDIDType(DIDMethodIden3, Polygon, Main)] is the byte pair
    [{0x01, 0x11}] with no error, in the codec of [utils/utils.go] and in
    the earlier codec. *)
Theorem BuildDIDType_Iden3_Polygon_Main :
  Core.BuildDIDType Core.DIDMethodIden3 Polygon Main = ([0x01; 0x11], None)
  /\ CoreLegacy.BuildDIDType CoreLegacy.DIDMethodIden3 Polygon Main
     = ([0x01; 0x11], None).
Proof. split; vm_compute; reflexivity. Qed.


Lemma table_blockchain_not_NoChain method flag sb :
  table_entry method flag sb -> normalized (flagBlockchain flag) = flagBlockchain flag.
Proof.
  intros (networks & H1 & H2).
  destruct H1 as [H|[H|[H|[]]]]; injection H as <- <-;
    cbn in H2; intuition (match goal with
                          | H : (_, _) = (_, _) |- _ => injection H as <- <-
                          end; reflexivity).
Qed.

Lemma Find_by_value_of_entry (E : Externals) method flag sb :
  ExternalsOK E -> table_entry method flag sb ->
  Core.FindBlockchainForDIDMethodByValue E method sb
  = (flagBlockchain flag, None)
  /\ Core.FindNetworkIDForDIDMethodByValue E method sb
     = (flagNetworkID flag, None).
Proof.
  intros HE Ht.
  destruct Ht as (networks & H1 & H2).
  pose proof (Core_tables_NoDup method networks H1) as [_ Hv].
  apply (map_get_In Z.eqb Z.eqb_eq _ _ _ Core_table_keys_NoDup) in H1.
  unfold Core.FindBlockchainForDIDMethodByValue,
    Core.FindNetworkIDForDIDMethodByValue.
  rewrite H1, (range_find_value_any_order E networks flag sb HE Hv H2).
  split; reflexivity.
Qed.

Lemma bytes_be_length n v : length (Reference.bytes_be n v) = n.
Proof.
  unfold Reference.bytes_be. now rewrite length_map, length_rev, length_seq.
Qed.

(** The reference digest on the test vector "abc" of FIPS 180-4:
    [ba7816bf 8f01cfea 414140de 5dae2223 b00361a3 96177a9c b410ff61
    f20015ad]. *)
Example Reference_Sum256_abc :
  Reference.Sum256 (bytes_of_string "abc")
  = [0xba; 0x78; 0x16; 0xbf; 0x8f; 0x01; 0xcf; 0xea;
     0x41; 0x41; 0x40; 0xde; 0x5d; 0xae; 0x22; 0x23;
     0xb0; 0x03; 0x61; 0xa3; 0x96; 0x17; 0x7a; 0x9c;
     0xb4; 0x10; 0xff; 0x61; 0xf2; 0x00; 0x15; 0xad].
Proof. vm_compute; reflexivity. Qed.

Lemma Reference_externals_ok : ExternalsOK Reference.externals.
Proof.
  constructor.
  - intros A l. apply Permutation_sym, Permutation_rev.
  - reflexivity.
  - intros msg. change (length (Reference.Sum256 msg) = 32%nat).
    unfold Reference.Sum256. cbv zeta.
    rewrite !length_app, !bytes_be_length. reflexivity.
Qed.

(** C3: for a known method and a (blockchain, network) pair of its table,
    [BuildDIDType] yields the method byte and the pair's byte, and decoding
    that second byte with [FindBlockchainForDIDMethodByValue] and
    [FindNetworkIDForDIDMethodByValue] returns the blockchain and the
    network one started from, whatever the order in which [range] visits
    the table; no other pair of the table has that byte. *)
Theorem type_byte_round_trip (E : Externals) (method : Z)
        (flag : DIDNetworkFlag) (sb : Z) :
  ExternalsOK E -> known_method method -> table_entry method flag sb ->
  Core.BuildDIDType method (flagBlockchain flag) (flagNetworkID flag)
  = ([method; sb], None)
  /\ Core.FindBlockchainForDIDMethodByValue E method sb
     = (flagBlockchain flag, None)
  /\ Core.FindNetworkIDForDIDMethodByValue E method sb
     = (flagNetworkID flag, None)
  /\ (forall flag', table_entry method flag' sb -> flag' = flag).
Proof.
  intros HE Hk Ht.
  destruct (Find_by_value_of_entry E method flag sb HE Ht) as [Fb Fn].
  repeat apply conj; [|exact Fb|exact Fn|].
  - destruct (BuildDIDType_cases method (flagBlockchain flag)
                (flagNetworkID flag))
      as [(Hk' & _)|[(_ & Ha & _)|(_ & sb' & Ht' & R)]].
    + tauto.
    + exfalso. apply (Ha sb).
      rewrite (table_blockchain_not_NoChain method flag sb Ht).
      now destruct flag.
    + rewrite (table_blockchain_not_NoChain method flag sb Ht) in Ht'.
      replace (mkFlag (flagBlockchain flag) (flagNetworkID flag))
        with flag in Ht' by now destruct flag.
      apply table_entry_lookup in Ht as (n1 & A1 & A2).
      apply table_entry_lookup in Ht' as (n2 & B1 & B2).
      rewrite R. congruence.
  - intros flag' Ht'.
    destruct (Find_by_value_of_entry E method flag' sb HE Ht') as [Fb' Fn'].
    destruct flag as [b n], flag' as [b' n']; cbn in *.
    congruence.
Qed.

Lemma type_byte_round_trip_witness :
  Core.BuildDIDType Core.DIDMethodPolygonID Ethereum Goerli
  = ([2; 34], None)
  /\ Core.FindBlockchainForDIDMethodByValue Reference.externals 2 34
     = (Ethereum, None)
  /\ Core.FindNetworkIDForDIDMethodByValue Reference.externals 2 34
     = (Goerli, None)
  /\ (forall flag', table_entry 2 flag' 34 -> flag' = mkFlag Ethereum Goerli).
Proof.
  apply (type_byte_round_trip Reference.externals 2
           (mkFlag Ethereum Goerli) 34 Reference_externals_ok).
  - right; left; reflexivity.
  - eexists; split; [right; left; reflexivity|].
    cbn; auto 6.
Defined.

End TypeTable.

(** ** Chain addresses *)
Section ChainAddress.

Lemma bytes_Equal_refl (l : list Z) : bytes_Equal l l = true.
Proof. induction l as [|x l IH]; cbn; [reflexivity|now rewrite Z.eqb_refl]. Qed.

Lemma bytes_Equal_eq (a b : list Z) : bytes_Equal a b = true <-> a = b.
Proof.
  revert b; induction a as [|x a IH]; intros [|y b]; cbn;
    try (split; [discriminate|discriminate]); [tauto|].
  rewrite andb_true_iff, Z.eqb_eq, IH.
  split; [intros [-> ->]; reflexivity | intros [= -> ->]; auto].
Qed.

Lemma firstn_exact {A : Type} (l r : list A) n :
  length l = n -> firstn n (l ++ r) = l.
Proof.
  intros <-. rewrite firstn_app, Nat.sub_diag, firstn_all.
  cbn. apply app_nil_r.
Qed.

Lemma skipn_exact {A : Type} (l r : list A) n :
  length l = n -> skipn n (l ++ r) = r.
Proof.
  intros <-. now rewrite skipn_app, Nat.sub_diag, skipn_all.
Qed.

Lemma GenesisFromEthAddress_layout (addr : list Z) :
  length addr = 20%nat ->
  Core.GenesisFromEthAddress addr = repeat 0 7 ++ addr.
Proof.
  intros Hlen. unfold Core.GenesisFromEthAddress, copy, genesisLn.
  change (firstn 7 (repeat 0 27)) with (repeat 0 7).
  change (skipn 7 (repeat 0 27)) with (repeat 0 20).
  rewrite repeat_length, Hlen.
  rewrite <- Hlen at 1. rewrite firstn_all.
  change (skipn 20 (repeat 0 20)) with (@nil Z).
  now rewrite app_nil_r.
Qed.

(** A reserved byte that is not zero makes the comparison with [z] fail. *)
Lemma reserved_bytes_checked (id : list Z) (i : nat) :
  (2 <= i < 9)%nat -> nth i id 0 <> 0 ->
  bytes_Equal (repeat 0 7) (sub id 2 9) = false.
Proof.
  intros Hi Hnz.
  destruct (bytes_Equal (repeat 0 7) (sub id 2 9)) eqn:Eq; [|reflexivity].
  apply bytes_Equal_eq in Eq. exfalso; apply Hnz.
  assert (H : nth (i - 2) (sub id 2 9) 0 = nth i id 0).
  { unfold sub. rewrite nth_firstn.
    replace (i - 2 <? 9 - 2)%nat with true
      by (symmetry; apply Nat.ltb_lt; lia).
    rewrite nth_skipn. f_equal; lia. }
  rewrite <- H, <- Eq.
  do 9 (destruct i as [|i]; try lia; try reflexivity).
Qed.

(** C5: [EthAddressFromID] inverts [GenesisFromEthAddress] under [NewID],
    for every 20-byte address and 2-byte type; and it returns an error for
    every identifier one of whose seven reserved bytes (offsets 2 to 8) is
    not zero. *)
Theorem EthAddressFromID_inverse (E : Externals) :
  (forall typ addr,
      length typ = 2%nat -> length addr = 20%nat ->
      Core.EthAddressFromID (NewID E typ (Core.GenesisFromEthAddress addr))
      = (addr, None))
  /\ (forall id i,
         (2 <= i < 9)%nat -> nth i id 0 <> 0 ->
         Core.EthAddressFromID id
         = (repeat 0 20,
            Some (New "can't get Ethereum address: high bytes of genesis are not zero"))).
Proof.
  split.
  - intros typ addr Ht Ha.
    rewrite (GenesisFromEthAddress_layout addr Ha).
    unfold Core.EthAddressFromID, NewID, sub.
    rewrite repeat_length. change (2 + 7 - 2)%nat with 7%nat.
    rewrite (skipn_exact typ _ 2 Ht).
    set (cs := CalculateChecksum E typ (repeat 0 7 ++ addr)).
    rewrite <- (app_assoc (repeat 0 7) addr cs).
    change (firstn 7 (repeat 0 7 ++ addr ++ cs)) with (repeat 0 7).
    rewrite bytes_Equal_refl. cbn [negb].
    change (2 + 7)%nat with 9%nat.
    rewrite (app_assoc typ (repeat 0 7) (addr ++ cs)).
    rewrite (skipn_exact (typ ++ repeat 0 7) _ 9)
      by (rewrite length_app, Ht; reflexivity).
    unfold copy. rewrite repeat_length.
    rewrite (firstn_exact addr _ 20 Ha).
    rewrite skipn_all2 by (rewrite repeat_length, length_app; lia).
    now rewrite app_nil_r.
  - intros id i Hi Hnz. unfold Core.EthAddressFromID.
    rewrite repeat_length. change (2 + 7)%nat with 9%nat.
    now rewrite (reserved_bytes_checked id i Hi Hnz).
Qed.

End ChainAddress.

(** ** Identifiers of unregistered methods *)
Section OtherMethod.

Lemma other_table_entry :
  table_entry Core.DIDMethodOther (mkFlag UnknownChain UnknownNetwork) 255.
Proof.
  eexists; split; [right; right; left; reflexivity | left; reflexivity].
Qed.

Lemma decodeDIDPartsFromID_other (E : Externals) (id : list Z) :
  ExternalsOK E ->
  nth 0 id 0 = Core.DIDMethodOther -> nth 1 id 0 = 255 ->
  Core.decodeDIDPartsFromID E id
  = (Core.DIDMethodOther, UnknownChain, UnknownNetwork, None).
Proof.
  intros HE H0 H1. unfold Core.decodeDIDPartsFromID.
  rewrite H0, H1.
  destruct (Find_by_value_of_entry E _ _ _ HE other_table_entry) as [Fb Fn].
  now rewrite Fb, Fn.
Qed.

Lemma ParseDIDFromID_other (E : Externals) (id : list Z) :
  ExternalsOK E ->
  nth 0 id 0 = Core.DIDMethodOther -> nth 1 id 0 = 255 ->
  Core.ParseDIDFromID E id
  = if CheckChecksum E id
    then (None, Some (Errorf (Var ErrMethodUnknown) "unsupported DID"))
    else (None, Some (Errorf (Var ErrUnsupportedID) "invalid checksum")).
Proof.
  intros HE H0 H1. unfold Core.ParseDIDFromID.
  destruct (CheckChecksum E id); cbn [negb]; [|reflexivity].
  now rewrite (decodeDIDPartsFromID_other E id HE H0 H1).
Qed.

Lemma copy_exact {A : Type} (dst src : list A) :
  length src = length dst -> copy dst src = src.
Proof.
  intros H. unfold copy. rewrite <- H, firstn_all, H, skipn_all.
  apply app_nil_r.
Qed.

Lemma newIDFromUnsupportedDID_layout (E : Externals) (did : DID) :
  ExternalsOK E ->
  Core.newIDFromUnsupportedDID E did
  = NewID E [255; 255]
          (skipn 5 (sha256_Sum256 E (bytes_of_string (DID_String E did)))).
Proof.
  intros HE. unfold Core.newIDFromUnsupportedDID.
  cbv zeta. f_equal.
  apply copy_exact.
  rewrite length_skipn, (sha256_length E HE), repeat_length. reflexivity.
Qed.

(** C8: an identifier whose type bytes are [{0xFF, 0xFF}] never yields a
    DID: [ParseDIDFromID] returns no DID and an error; when the checksum
    of the identifier is valid the error is [ErrMethodUnknown]
    ("unsupported DID"); the identifiers built by the fallback for
    unregistered methods are of that type, so the same holds of them. *)
Theorem ParseDIDFromID_other_method (E : Externals) (id : list Z) :
  ExternalsOK E ->
  nth 0 id 0 = Core.DIDMethodOther -> nth 1 id 0 = 255 ->
  fst (Core.ParseDIDFromID E id) = None
  /\ (exists e, snd (Core.ParseDIDFromID E id) = Some e)
  /\ (CheckChecksum E id = true ->
      Core.ParseDIDFromID E id
      = (None, Some (Errorf (Var ErrMethodUnknown) "unsupported DID")))
  /\ (forall did,
         let id' := Core.newIDFromUnsupportedDID E did in
         fst (Core.ParseDIDFromID E id') = None
         /\ (exists e, snd (Core.ParseDIDFromID E id') = Some e)
         /\ (CheckChecksum E id' = true ->
             Core.ParseDIDFromID E id'
             = (None, Some (Errorf (Var ErrMethodUnknown) "unsupported DID")))).
Proof.
  intros HE H0 H1.
  rewrite (ParseDIDFromID_other E id HE H0 H1).
  repeat apply conj.
  - now destruct (CheckChecksum E id).
  - destruct (CheckChecksum E id); eexists; reflexivity.
  - now intros ->.
  - intros did id'.
    rewrite (ParseDIDFromID_other E id' HE)
      by (subst id'; rewrite (newIDFromUnsupportedDID_layout E did HE);
          reflexivity).
    destruct (CheckChecksum E id'); repeat apply conj;
      try reflexivity; try discriminate; eexists; reflexivity.
Qed.

Lemma ParseDIDFromID_other_method_witness :
  CheckChecksum Reference.externals id_other = true
  /\ Core.ParseDIDFromID Reference.externals id_other
     = (None, Some (Errorf (Var ErrMethodUnknown) "unsupported DID"))
  /\ Core.ParseDIDFromID Reference.externals
       (Core.newIDFromUnsupportedDID Reference.externals did_foo)
     = (None, Some (Errorf (Var ErrMethodUnknown) "unsupported DID")).
Proof.
  assert (Hc : CheckChecksum Reference.externals id_other = true)
    by (vm_compute; reflexivity).
  destruct (ParseDIDFromID_other_method Reference.externals id_other
              Reference_externals_ok eq_refl eq_refl)
    as (_ & _ & H & F).
  split; [exact Hc|]. split; [exact (H Hc)|].
  destruct (F did_foo) as (_ & _ & G).
  apply G. vm_compute; reflexivity.
Defined.

Lemma method_found_iff (E : Externals) (did : DID) :
  ExternalsOK E ->
  existsb (fun kv => String.eqb (Core.DIDMethod_String (fst kv)) (Method did))
          (rangeOrder E _ Core.knownMethods) = true
  <-> exists method,
      known_method method /\ Core.DIDMethod_String method = Method did.
Proof.
  intros HE. pose proof (rangeOrder_perm E HE _ Core.knownMethods) as P.
  rewrite existsb_exists. split.
  - intros ([m u] & Hin & Heq). exists m. split.
    + apply (Permutation_in _ P) in Hin.
      unfold known_method. now apply (in_map fst) in Hin.
    + now apply String.eqb_eq in Heq.
  - intros (m & Hk & Heq).
    unfold known_method in Hk. apply in_map_iff in Hk as ([m' u] & <- & Hin).
    exists (m', u). split.
    + apply (Permutation_in _ (Permutation_sym P)), Hin.
    + now apply String.eqb_eq.
Qed.

Lemma idFromDID_unknown_method (E : Externals) (did : DID) :
  ExternalsOK E -> unknown_method_DID did ->
  Core.idFromDID E did = (ID_zero, Some (Var ErrMethodUnknown)).
Proof.
  intros HE Hu. unfold Core.idFromDID.
  destruct (existsb _ _) eqn:Ef; [|reflexivity].
  apply (method_found_iff E did HE) in Ef as (m & Hk & Heq).
  destruct (Hu m Hk Heq).
Qed.

Lemma IDFromDID_fallback (E : Externals) (did : DID) :
  ExternalsOK E -> unknown_method_DID did ->
  Core.IDFromDID E did
  = (NewID E [255; 255]
           (skipn 5 (sha256_Sum256 E (bytes_of_string (DID_String E did)))),
     None).
Proof.
  intros HE Hu. unfold Core.IDFromDID.
  rewrite (idFromDID_unknown_method E did HE Hu).
  cbn [errors_Is sentinel_eqb].
  now rewrite (newIDFromUnsupportedDID_layout E did HE).
Qed.

(** C4: for DIDs of an unregistered method, [IDFromDID] returns no error
    and an identifier that depends on the DID's string only: two calls on
    DIDs with equal strings return the same bytes, whatever the order in
    which each call's [range] visits the map of known methods.  The type
    bytes of that identifier are [{0xFF, 0xFF}] (other method, unknown
    chain and network) and its genesis field is the last 27 of the 32
    bytes of the SHA-256 digest of the DID string. *)
Theorem IDFromDID_unknown_method_deterministic
        (E : Externals) (order1 order2 : forall A : Type, list A -> list A)
        (did1 did2 : DID) :
  ExternalsOK (with_rangeOrder E order1) ->
  ExternalsOK (with_rangeOrder E order2) ->
  unknown_method_DID did1 -> unknown_method_DID did2 ->
  DID_String E did1 = DID_String E did2 ->
  let r1 := Core.IDFromDID (with_rangeOrder E order1) did1 in
  let r2 := Core.IDFromDID (with_rangeOrder E order2) did2 in
  let digest := sha256_Sum256 E (bytes_of_string (DID_String E did1)) in
  r1 = r2
  /\ snd r1 = None
  /\ fst r1 = NewID E [Core.DIDMethodOther; 255] (skipn 5 digest)
  /\ nth 0 (fst r1) 0 = Core.DIDMethodOther
  /\ nth 1 (fst r1) 0 = 255
  /\ sub (fst r1) 2 (2 + genesisLn) = skipn 5 digest.
Proof.
  intros H1 H2 U1 U2 Hs r1 r2 digest. subst r1 r2.
  rewrite (IDFromDID_fallback _ did1 H1 U1), (IDFromDID_fallback _ did2 H2 U2).
  cbn [DID_String sha256_Sum256 with_rangeOrder fst snd].
  fold digest. rewrite <- Hs. fold digest.
  repeat apply conj; try reflexivity.
  unfold NewID, sub.
  change (skipn 2 ([255; 255] ++ skipn 5 digest ++ _))
    with (skipn 5 digest ++ CalculateChecksum E [255; 255] (skipn 5 digest)).
  apply firstn_exact.
  pose proof (sha256_length _ H1 (bytes_of_string (DID_String E did1))) as L.
  cbn [sha256_Sum256 with_rangeOrder] in L. fold digest in L.
  rewrite length_skipn, L. reflexivity.
Qed.

Lemma IDFromDID_unknown_method_deterministic_witness :
  let r1 := Core.IDFromDID
              (with_rangeOrder Reference.externals (fun A l => l)) did_foo in
  let r2 := Core.IDFromDID
              (with_rangeOrder Reference.externals (fun A l => rev l))
              did_foo in
  let digest :=
    Reference.Sum256 (bytes_of_string (Reference.DID_String did_foo)) in
  r1 = r2
  /\ snd r1 = None
  /\ fst r1 = NewID Reference.externals [255; 255] (skipn 5 digest)
  /\ nth 0 (fst r1) 0 = 255
  /\ nth 1 (fst r1) 0 = 255
  /\ sub (fst r1) 2 29 = skipn 5 digest.
Proof.
  apply (IDFromDID_unknown_method_deterministic Reference.externals
           (fun A l => l) (fun A l => rev l) did_foo did_foo).
  - constructor; [intros; apply Permutation_refl | reflexivity |].
    exact (sha256_length _ Reference_externals_ok).
  - exact Reference_externals_ok.
  - intros m [<-|[<-|[]]]; vm_compute; discriminate.
  - intros m [<-|[<-|[]]]; vm_compute; discriminate.
  - reflexivity.
Defined.

End OtherMethod.

(** ** Cross-checking a DID against its identifier *)
Section Decomposition.

Lemma segments_in_range (n : nat) :
  (1 <= n <= 3)%nat -> ((3 <? n) || (n <? 1))%nat = false.
Proof.
  intros H. apply orb_false_iff; split; apply Nat.ltb_ge; lia.
Qed.

(** [idFromDID] past its parsing steps: the three comparisons. *)
Lemma idFromDID_checked (E : Externals) (did : DID) (id : list Z)
      (method : Z) (blockchain networkID : string) :
  ExternalsOK E ->
  (exists m, known_method m /\ Core.DIDMethod_String m = Method did) ->
  (1 <= length (IDStrings did) <= 3)%nat ->
  IDFromString E (last_segment did) = (id, None) ->
  CheckChecksum E id = true ->
  Core.decodeDIDPartsFromID E id = (method, blockchain, networkID, None) ->
  Core.idFromDID E did
  = if negb (String.eqb (Core.DIDMethod_String method) (Method did)) then
      (id, Some (Errorf (Var ErrIncorrectDID)
                        "methods in ID and DID are different"))
    else if (1 <? length (IDStrings did))%nat
            && negb (String.eqb blockchain (segment did 0)) then
      (id, Some (Errorf (Var ErrIncorrectDID)
                        "blockchains in ID and DID are different"))
    else if (2 <? length (IDStrings did))%nat
            && negb (String.eqb networkID (segment did 1)) then
      (id, Some (Errorf (Var ErrIncorrectDID)
                        "networkIDs in ID and DID are different"))
    else (id, None).
Proof.
  intros HE Hk Hn Hid Hc Hd. unfold Core.idFromDID.
  apply (method_found_iff E did HE) in Hk. rewrite Hk. cbn [negb].
  rewrite (segments_in_range _ Hn).
  fold (last_segment did). rewrite Hid, Hc. cbn [negb]. rewrite Hd.
  reflexivity.
Qed.

(** [Decompose] past its parsing steps. *)
Lemma Decompose_checked (E : Externals) (did : DID) (id : list Z)
      (method blockchain networkID : string) :
  (1 <= length (IDStrings did) <= 3)%nat ->
  IDFromString E (last_segment did) = (id, None) ->
  CheckChecksum E id = true ->
  CoreLegacy.decodeDIDPartsFromID E id
  = (method, blockchain, networkID, None) ->
  CoreLegacy.Decompose E did
  = if negb (String.eqb method (Method did)) then
      (UnknownChain, UnknownNetwork, id,
       Some (Errorf (Var ErrInvalidDID)
               ("method mismatch: found " ++ method ++ " in ID but "
                ++ Method did ++ " in DID")))
    else if (1 <? length (IDStrings did))%nat
            && negb (String.eqb blockchain (segment did 0)) then
      (UnknownChain, UnknownNetwork, id,
       Some (Errorf (Var ErrInvalidDID)
               ("blockchain mismatch: found " ++ blockchain ++ " in ID but "
                ++ segment did 0 ++ " in DID")))
    else if (2 <? length (IDStrings did))%nat
            && negb (String.eqb networkID (segment did 1)) then
      (UnknownChain, UnknownNetwork, id,
       Some (Errorf (Var ErrInvalidDID)
               ("network ID mismatch: found " ++ networkID ++ " in ID but "
                ++ segment did 1 ++ " in DID")))
    else (blockchain, networkID, id, None).
Proof.
  intros Hn Hid Hc Hd.
  unfold CoreLegacy.Decompose, CoreLegacy.decodeIDFromDID.
  replace (3 <? length (IDStrings did))%nat with false
    by (symmetry; apply Nat.ltb_ge; lia).
  replace (length (IDStrings did) <? 1)%nat with false
    by (symmetry; apply Nat.ltb_ge; lia).
  fold (last_segment did). rewrite Hid, Hc. cbn [negb]. rewrite Hd.
  reflexivity.
Qed.

Lemma eqb_differs (a b : string) : a <> b -> negb (String.eqb a b) = true.
Proof. intros H. apply negb_true_iff, String.eqb_neq, H. Qed.

Lemma eqb_agrees (a b : string) : a = b -> negb (String.eqb a b) = false.
Proof. intros ->. now rewrite String.eqb_refl. Qed.

Lemma present_and_differs (n k : nat) (a b : string) :
  (k < n)%nat -> a <> b -> (k <? n)%nat && negb (String.eqb a b) = true.
Proof.
  intros Hk Hab. rewrite eqb_differs by exact Hab.
  now apply andb_true_iff; split; [apply Nat.ltb_lt|].
Qed.

Lemma absent_or_agrees (n k : nat) (a b : string) :
  ((k < n)%nat -> a = b) -> (k <? n)%nat && negb (String.eqb a b) = false.
Proof.
  intros H. destruct (k <? n)%nat eqn:Ek; [|reflexivity].
  apply Nat.ltb_lt in Ek. now rewrite (eqb_agrees a b (H Ek)).
Qed.

(** C2, as stated, fails for [idFromDID]: the DID
    [did:foo:polygon:main:<id>] carries a well-formed, checksum-valid
    identifier of method iden3, its method segment [foo] differs from the
    method decoded from the identifier, and [idFromDID] returns
    [ErrMethodUnknown], not the error of the method comparison
    ([IDFromDID] then returns the fallback identifier and no error). *)
Lemma idFromDID_unknown_method_not_mismatch :
  IDFromString Reference.externals (last_segment did_foo)
  = (id_iden3_polygon_main, None)
  /\ CheckChecksum Reference.externals id_iden3_polygon_main = true
  /\ Core.decodeDIDPartsFromID Reference.externals id_iden3_polygon_main
     = (Core.DIDMethodIden3, Polygon, Main, None)
  /\ Core.DIDMethod_String Core.DIDMethodIden3 <> Method did_foo
  /\ Core.idFromDID Reference.externals did_foo
     = (ID_zero, Some (Var ErrMethodUnknown))
  /\ Core.idFromDID Reference.externals did_foo
     <> (id_iden3_polygon_main,
         Some (Errorf (Var ErrIncorrectDID)
                      "methods in ID and DID are different"))
  /\ snd (Core.IDFromDID Reference.externals did_foo) = None.
Proof.
  repeat apply conj; try (vm_compute; reflexivity);
    vm_compute; discriminate.
Qed.

(** C2, amended: let the last of the one to three segments of a DID decode
    to a checksum-valid identifier whose type bytes decode to (method,
    blockchain, network).  [Decompose] returns the error of the first
    comparison that fails, in the order method, blockchain segment (when
    present), network segment (when present), and no decomposition.
    [idFromDID] does the same when the DID's method is one of the known
    methods; when it is not, [idFromDID] returns [ErrMethodUnknown]
    without looking at the identifier. *)
Theorem mismatch_is_reported (E : Externals) (did : DID) (id : list Z) :
  ExternalsOK E ->
  (1 <= length (IDStrings did) <= 3)%nat ->
  IDFromString E (last_segment did) = (id, None) ->
  CheckChecksum E id = true ->
  (forall method blockchain networkID,
      CoreLegacy.decodeDIDPartsFromID E id
      = (method, blockchain, networkID, None) ->
      (method <> Method did ->
       CoreLegacy.Decompose E did
       = (UnknownChain, UnknownNetwork, id,
          Some (Errorf (Var ErrInvalidDID)
                  ("method mismatch: found " ++ method ++ " in ID but "
                   ++ Method did ++ " in DID"))))
      /\ (method = Method did ->
          (1 < length (IDStrings did))%nat ->
          blockchain <> segment did 0 ->
          CoreLegacy.Decompose E did
          = (UnknownChain, UnknownNetwork, id,
             Some (Errorf (Var ErrInvalidDID)
                     ("blockchain mismatch: found " ++ blockchain
                      ++ " in ID but " ++ segment did 0 ++ " in DID"))))
      /\ (method = Method did ->
          ((1 < length (IDStrings did))%nat -> blockchain = segment did 0) ->
          (2 < length (IDStrings did))%nat ->
          networkID <> segment did 1 ->
          CoreLegacy.Decompose E did
          = (UnknownChain, UnknownNetwork, id,
             Some (Errorf (Var ErrInvalidDID)
                     ("network ID mismatch: found " ++ networkID
                      ++ " in ID but " ++ segment did 1 ++ " in DID")))))
  /\ (forall method blockchain networkID,
         Core.decodeDIDPartsFromID E id
         = (method, blockchain, networkID, None) ->
         (unknown_method_DID did ->
          Core.idFromDID E did = (ID_zero, Some (Var ErrMethodUnknown)))
         /\ ((exists m,
                 known_method m /\ Core.DIDMethod_String m = Method did) ->
             (Core.DIDMethod_String method <> Method did ->
              Core.idFromDID E did
              = (id, Some (Errorf (Var ErrIncorrectDID)
                                  "methods in ID and DID are different")))
             /\ (Core.DIDMethod_String method = Method did ->
                 (1 < length (IDStrings did))%nat ->
                 blockchain <> segment did 0 ->
                 Core.idFromDID E did
                 = (id, Some (Errorf (Var ErrIncorrectDID)
                                "blockchains in ID and DID are different")))
             /\ (Core.DIDMethod_String method = Method did ->
                 ((1 < length (IDStrings did))%nat ->
                  blockchain = segment did 0) ->
                 (2 < length (IDStrings did))%nat ->
                 networkID <> segment did 1 ->
                 Core.idFromDID E did
                 = (id, Some (Errorf (Var ErrIncorrectDID)
                                "networkIDs in ID and DID are different"))))).
Proof.
  intros HE Hn Hid Hc. split.
  - intros method blockchain networkID Hd.
    rewrite (Decompose_checked E did id _ _ _ Hn Hid Hc Hd).
    repeat apply conj.
    + intros Hm. now rewrite (eqb_differs _ _ Hm).
    + intros Hm H1 Hb.
      now rewrite (eqb_agrees _ _ Hm), (present_and_differs _ _ _ _ H1 Hb).
    + intros Hm Hb H2 Hw.
      now rewrite (eqb_agrees _ _ Hm), (absent_or_agrees _ _ _ _ Hb),
        (present_and_differs _ _ _ _ H2 Hw).
  - intros method blockchain networkID Hd. split.
    + intros Hu. exact (idFromDID_unknown_method E did HE Hu).
    + intros Hk.
      rewrite (idFromDID_checked E did id _ _ _ HE Hk Hn Hid Hc Hd).
      repeat apply conj.
      * intros Hm. now rewrite (eqb_differs _ _ Hm).
      * intros Hm H1 Hb.
        now rewrite (eqb_agrees _ _ Hm), (present_and_differs _ _ _ _ H1 Hb).
      * intros Hm Hb H2 Hw.
        now rewrite (eqb_agrees _ _ Hm), (absent_or_agrees _ _ _ _ Hb),
          (present_and_differs _ _ _ _ H2 Hw).
Qed.

Lemma mismatch_is_reported_witness :
  CoreLegacy.Decompose Reference.externals did_iden3_eth
  = (UnknownChain, UnknownNetwork, id_iden3_polygon_main,
     Some (Errorf (Var ErrInvalidDID)
             "blockchain mismatch: found polygon in ID but eth in DID"))
  /\ Core.idFromDID Reference.externals did_iden3_eth
     = (id_iden3_polygon_main,
        Some (Errorf (Var ErrIncorrectDID)
                "blockchains in ID and DID are different")).
Proof.
  assert (Hn : (1 <= length (IDStrings did_iden3_eth) <= 3)%nat)
    by (cbn; lia).
  assert (Hid : IDFromString Reference.externals (last_segment did_iden3_eth)
                = (id_iden3_polygon_main, None))
    by (vm_compute; reflexivity).
  assert (Hc : CheckChecksum Reference.externals id_iden3_polygon_main = true)
    by (vm_compute; reflexivity).
  destruct (mismatch_is_reported Reference.externals did_iden3_eth
              id_iden3_polygon_main Reference_externals_ok Hn Hid Hc)
    as [L C].
  split.
  - apply (L "iden3" "polygon" "main")%string.
    + vm_compute; reflexivity.
    + reflexivity.
    + cbn; lia.
    + discriminate.
  - apply (C 1 "polygon" "main")%string.
    + vm_compute; reflexivity.
    + exists 1. split; [left; reflexivity | reflexivity].
    + reflexivity.
    + cbn; lia.
    + discriminate.
Defined.

End Decomposition.

(** ** Timestamps *)
Section Timestamps.
Import GoTime Utils.

Lemma binary_round_aux_negative mx ex lx :
  not_positive (binary_round_aux prec emax true mx ex lx).
Proof.
  unfold binary_round_aux.
  destruct (shr_fexp prec emax mx ex lx) as [mrs' e'].
  destruct (shr_fexp prec emax _ e' loc_Exact) as [mrs'' e''].
  destruct (shr_m mrs''); [exact I | | exact I].
  destruct (e'' <=? emax - prec); exact I.
Qed.

Lemma binary_round_negative m e :
  not_positive (binary_round prec emax true m e).
Proof.
  unfold binary_round.
  destruct (shl_align m e _) as [mz ez].
  apply binary_round_aux_negative.
Qed.

Lemma float64_of_int_not_positive z :
  z <= 0 -> not_positive (float64_of_int z).
Proof.
  intros Hz. destruct z as [|p|p]; [exact I | lia |].
  apply binary_round_negative.
Qed.

Lemma SFdiv_not_positive x m e :
  not_positive x ->
  not_positive (SFdiv prec emax x (S754_finite false m e)).
Proof.
  destruct x as [s|s| |s mx ex]; cbn [SFdiv not_positive xorb];
    try destruct s; cbn [xorb]; try tauto.
  intros _.
  destruct (SFdiv_core_binary prec emax (Z.pos mx) ex (Z.pos m) e)
    as [[mz ez] lz].
  apply binary_round_aux_negative.
Qed.

Lemma SFadd_not_positive x y :
  not_positive x -> not_positive y -> not_positive (SFadd prec emax x y).
Proof.
  destruct x as [sx|sx| |sx mx ex], y as [sy|sy| |sy my ey];
    try destruct sx; try destruct sy;
    cbn [SFadd not_positive]; try tauto.
  intros _ _.
  cbn [cond_Zopp Z.opp Z.add binary_normalize].
  apply binary_round_negative.
Qed.

Lemma int_of_float64_not_positive f :
  not_positive f -> int_of_float64 f <= 0.
Proof.
  assert (Hmin : minDuration <= 0) by (unfold minDuration; lia).
  destruct f as [s|s| |s m e]; cbn [int_of_float64 not_positive];
    try lia; try (destruct s; tauto || lia).
  destruct s; [intros _ | tauto].
  cbv zeta.
  set (a := if 0 <=? e then Z.pos m * 2 ^ e else Z.pos m / 2 ^ (- e)).
  assert (Ha : 0 <= a).
  { subst a. destruct (0 <=? e) eqn:Ee.
    - apply Z.leb_le in Ee.
      apply Z.mul_nonneg_nonneg; [lia | apply Z.pow_nonneg; lia].
    - apply Z.leb_gt in Ee. apply Z.div_pos; [lia|].
      apply Z.pow_pos_nonneg; lia. }
  destruct ((minDuration <=? - a) && (- a <=? maxDuration)); lia.
Qed.

Lemma Seconds_not_positive d : d <= 0 -> not_positive (Seconds d).
Proof.
  intros Hd. unfold Seconds. cbv zeta.
  assert (Hq : Z.quot d Second <= 0).
  { replace d with (- - d) by lia.
    rewrite Z.quot_opp_l by (unfold Second; lia).
    pose proof (Z.quot_pos (- d) Second). unfold Second in *. lia. }
  assert (Hr : Z.rem d Second <= 0).
  { replace d with (- - d) by lia.
    rewrite Z.rem_opp_l by (unfold Second; lia).
    pose proof (Z.rem_nonneg (- d) Second). unfold Second in *. lia. }
  apply SFadd_not_positive; [now apply float64_of_int_not_positive|].
  let c := eval vm_compute in (float64_of_int 1000000000) in
  change (float64_of_int 1000000000) with c.
  apply SFdiv_not_positive. now apply float64_of_int_not_positive.
Qed.

Lemma Unix_10 s : Unix s 10 = mkTime (int64 (s + unixToInternal)) 10.
Proof. reflexivity. Qed.

(** No time has elapsed at an instant that is not before [now]. *)
Lemma Since_not_before (now t : Time) :
  0 <= nsec now < 1000000000 -> 0 <= nsec t ->
  ~ Before t now -> Since now t <= 0.
Proof.
  unfold Before, Since, Sub, Second, minDuration, maxDuration.
  intros Hn Ht Hb. cbv zeta.
  assert (sec now < sec t \/ (sec now = sec t /\ nsec now <= nsec t)) as H
      by lia.
  assert ((sec now - sec t) * 1000000000 + (nsec now - nsec t) <= 0) by nia.
  lia.
Qed.

Lemma int64_in_range z : - 2 ^ 63 <= z < 2 ^ 63 -> int64 z = z.
Proof.
  intros Hz. unfold int64.
  rewrite Z.mod_small by lia. lia.
Qed.

(** The elapsed whole seconds [VerifyTimestamp] computes when
    [time.Since] is at its maximum. *)
Lemma elapsed_at_maxDuration :
  int_of_float64 (Seconds maxDuration) = 9223372036.
Proof. vm_compute; reflexivity. Qed.

(** A timestamp from [2^63 - unixToInternal] up to [2^63 - 1] is past the
    last second [time.Unix] represents: the seconds wrap to an instant more
    than [2^63 - unixToInternal] seconds before year 1, and [time.Since]
    is at its maximum. *)
Lemma Since_wrapped (now : Time) (timestamp : Z) :
  0 <= nsec now < 1000000000 -> 0 <= sec now ->
  2 ^ 63 - unixToInternal <= timestamp < 2 ^ 63 ->
  sec (Unix (int64 timestamp) 10) = timestamp + unixToInternal - 2 ^ 64
  /\ Before (Unix (int64 timestamp) 10) now
  /\ Since now (Unix (int64 timestamp) 10) = maxDuration.
Proof.
  intros Hn Hs Hts. rewrite Unix_10. cbn [sec nsec].
  unfold unixToInternal in *.
  rewrite (int64_in_range timestamp) by lia.
  assert (Hw : int64 (timestamp + 62135596800)
               = timestamp + 62135596800 - 2 ^ 64).
  { unfold int64.
    replace (timestamp + 62135596800 + 2 ^ 63)
      with (timestamp + 62135596800 - 2 ^ 63 + 1 * 2 ^ 64) by lia.
    rewrite Z.mod_add by lia. rewrite Z.mod_small by lia. lia. }
  split; [exact Hw|]. split.
  - unfold Before. cbn [sec nsec]. rewrite Hw. lia.
  - unfold Since, Sub. cbn [sec nsec]. rewrite Hw.
    unfold Second, minDuration, maxDuration. lia.
Qed.

(** C10, as stated, fails.  With the clock at Unix second 1700000000, the
    timestamp [2^63 - 62135596800] is a [uint64] far ahead of the clock;
    [time.Unix] wraps it to the instant with seconds [-2^63], [time.Since]
    is at its maximum, the elapsed whole seconds are 9223372036 and
    [VerifyTimestamp] rejects it under a limit of 600 s.  And under the
    negative limit -5 a timestamp one second ahead of the clock is
    rejected, its elapsed whole seconds being 0. *)
Lemma VerifyTimestamp_far_future_rejected :
  sec sample_now - unixToInternal = 1700000000
  /\ 1700000000 < 2 ^ 63 - unixToInternal < 2 ^ 64
  /\ Unix (int64 (2 ^ 63 - unixToInternal)) 10 = mkTime (- 2 ^ 63) 10
  /\ Since sample_now (Unix (int64 (2 ^ 63 - unixToInternal)) 10)
     = maxDuration
  /\ int_of_float64
       (Seconds (Since sample_now (Unix (int64 (2 ^ 63 - unixToInternal)) 10)))
     = 9223372036
  /\ VerifyTimestamp sample_now (2 ^ 63 - unixToInternal) 600 = false
  /\ int_of_float64 (Seconds (Since sample_now (Unix (int64 1700000001) 10)))
     = 0
  /\ VerifyTimestamp sample_now 1700000001 (-5) = false.
Proof. repeat split; vm_compute; reflexivity || discriminate. Qed.

(** C10, amended: [VerifyTimestamp] returns true exactly when the elapsed
    whole seconds it computes are at most [timelimit].  For a timestamp
    whose instant is not before the clock reading they are at most zero,
    however far ahead the instant is, so it is accepted under every
    non-negative time limit: in numbers, every timestamp above the clock's
    Unix second and below [2^63 - 62135596800], the end of what
    [time.Unix] represents.  A timestamp from there up to [2^63 - 1] wraps
    to an instant in the past: its elapsed whole seconds are 9223372036
    and it is accepted only under a limit of at least that. *)
Theorem VerifyTimestamp_future_accepted
        (now : Time) (timestamp timelimit : Z) :
  0 <= nsec now < 1000000000 ->
  let t := Unix (int64 timestamp) 10 in
  let elapsed := int_of_float64 (Seconds (Since now t)) in
  (VerifyTimestamp now timestamp timelimit = true <-> elapsed <= timelimit)
  /\ (~ Before t now -> elapsed <= 0)
  /\ (~ Before t now -> 0 <= timelimit ->
      VerifyTimestamp now timestamp timelimit = true)
  /\ (0 <= timestamp < 2 ^ 63 - unixToInternal ->
      sec now - unixToInternal < timestamp ->
      0 <= timelimit ->
      VerifyTimestamp now timestamp timelimit = true)
  /\ (2 ^ 63 - unixToInternal <= timestamp < 2 ^ 63 ->
      0 <= sec now ->
      elapsed = 9223372036
      /\ VerifyTimestamp now timestamp timelimit
         = (9223372036 <=? timelimit)).
Proof.
  intros Hn t elapsed.
  assert (Hiff : VerifyTimestamp now timestamp timelimit = true
                 <-> elapsed <= timelimit).
  { unfold VerifyTimestamp. fold t. fold elapsed.
    destruct (elapsed >? timelimit) eqn:E.
    - apply Z.gtb_lt in E. split; [discriminate | lia].
    - assert (elapsed <= timelimit)
        by (destruct (Z_le_gt_dec elapsed timelimit) as [L|G];
            [exact L | apply Z.gt_lt, Z.gtb_lt in G; congruence]).
      tauto. }
  assert (Hfut : ~ Before t now -> elapsed <= 0).
  { intros Hb. subst elapsed.
    apply int_of_float64_not_positive, Seconds_not_positive.
    apply Since_not_before; [exact Hn | | exact Hb].
    subst t. rewrite Unix_10. cbn [nsec]. lia. }
  assert (Hacc : ~ Before t now -> 0 <= timelimit ->
                 VerifyTimestamp now timestamp timelimit = true).
  { intros Hb Hl. apply Hiff. specialize (Hfut Hb). lia. }
  repeat apply conj;
    [exact (proj1 Hiff) | exact (proj2 Hiff) | exact Hfut | exact Hacc | |].
  - intros Hts Hnow Hl. apply Hacc; [|exact Hl].
    subst t. rewrite Unix_10. unfold unixToInternal in *.
    rewrite (int64_in_range timestamp) by lia.
    rewrite int64_in_range by lia.
    unfold Before; cbn [sec nsec]. lia.
  - intros Hts Hs.
    destruct (Since_wrapped now timestamp Hn Hs Hts) as (_ & _ & Hmax).
    assert (He : elapsed = 9223372036).
    { subst elapsed t. rewrite Hmax. exact elapsed_at_maxDuration. }
    split; [exact He|].
    destruct (9223372036 <=? timelimit) eqn:El.
    + apply Hiff. apply Z.leb_le in El. lia.
    + apply Z.leb_gt in El.
      destruct (VerifyTimestamp now timestamp timelimit) eqn:Ev;
        [|reflexivity].
      pose proof (proj1 Hiff eq_refl). lia.
Qed.

Lemma VerifyTimestamp_future_accepted_witness :
  ~ Before (Unix (int64 (2 ^ 62)) 10) sample_now
  /\ VerifyTimestamp sample_now (2 ^ 62) 0 = true.
Proof.
  assert (Hn : 0 <= nsec sample_now < 1000000000) by (cbn; lia).
  assert (Hb : ~ Before (Unix (int64 (2 ^ 62)) 10) sample_now)
    by (intros [H|[H _]]; vm_compute in H; discriminate).
  destruct (VerifyTimestamp_future_accepted sample_now (2 ^ 62) 0 Hn)
    as (_ & _ & H & _).
  split; [exact Hb | apply H; [exact Hb | lia]].
Defined.

(** The check at work: a timestamp 500 s old passes a limit of 600 s, one
    1000 s old does not; a timestamp one second ahead fails a negative
    limit; a timestamp of [2^63] wraps to an instant long before the
    epoch and is rejected. *)
Example VerifyTimestamp_samples :
  VerifyTimestamp sample_now 1699999500 600 = true
  /\ VerifyTimestamp sample_now 1699999000 600 = false
  /\ VerifyTimestamp sample_now 1700000001 (-5) = false
  /\ VerifyTimestamp sample_now (2 ^ 63) 600 = false.
Proof. repeat split; vm_compute; reflexivity. Qed.

(** [Seconds] is a [float64]: close to [2^24] s the sum is rounded to the
    next whole second when the nanoseconds are 999999999. *)
Example Seconds_rounds_up :
  int_of_float64 (Seconds (16777216 * Second + 999999999)) = 16777217
  /\ int_of_float64 (Seconds (8388608 * Second + 999999999)) = 8388608.
Proof. split; vm_compute; reflexivity. Qed.

End Timestamps.

(** ** Big-endian integers *)
Section EthBytes.
Import Utils.

Lemma lor_shiftl_add (a b k : Z) :
  0 <= k -> 0 <= a < 2 ^ k -> Z.lor a (Z.shiftl b k) = a + b * 2 ^ k.
Proof.
  intros Hk Ha.
  assert (Hland : Z.land a (Z.shiftl b k) = 0).
  { apply Z.bits_inj'. intros n Hn.
    rewrite Z.land_spec, Z.bits_0.
    destruct (Z_lt_dec n k) as [L|G].
    - rewrite (Z.shiftl_spec_low b k n L). apply andb_false_r.
    - rewrite <- (Z.mod_small a (2 ^ k)) by exact Ha.
      rewrite Z.mod_pow2_bits_high by lia. reflexivity. }
  pose proof (Z.add_lor_land a (Z.shiftl b k)) as H.
  rewrite Hland in H. rewrite <- (Z.shiftl_mul_pow2 b k) by lia. lia.
Qed.

(** The value [binary.BigEndian.Uint32] assembles from four bytes. *)
Lemma Uint32_of_bytes (b0 b1 b2 b3 : Z) (rest : list Z) :
  0 <= b0 < 256 -> 0 <= b1 < 256 -> 0 <= b2 < 256 -> 0 <= b3 < 256 ->
  EthBytesToUint32 (b0 :: b1 :: b2 :: b3 :: rest)
  = Some (b3 + b2 * 2 ^ 8 + b1 * 2 ^ 16 + b0 * 2 ^ 24).
Proof.
  intros H0 H1 H2 H3. cbn [EthBytesToUint32]. f_equal.
  rewrite (lor_shiftl_add _ _ 8) by lia.
  rewrite (lor_shiftl_add _ _ 16) by lia.
  rewrite (lor_shiftl_add _ _ 24) by lia.
  reflexivity.
Qed.

Lemma Uint64_of_bytes (b0 b1 b2 b3 b4 b5 b6 b7 : Z) (rest : list Z) :
  0 <= b0 < 256 -> 0 <= b1 < 256 -> 0 <= b2 < 256 -> 0 <= b3 < 256 ->
  0 <= b4 < 256 -> 0 <= b5 < 256 -> 0 <= b6 < 256 -> 0 <= b7 < 256 ->
  EthBytesToUint64 (b0 :: b1 :: b2 :: b3 :: b4 :: b5 :: b6 :: b7 :: rest)
  = Some (b7 + b6 * 2 ^ 8 + b5 * 2 ^ 16 + b4 * 2 ^ 24
          + b3 * 2 ^ 32 + b2 * 2 ^ 40 + b1 * 2 ^ 48 + b0 * 2 ^ 56).
Proof.
  intros H0 H1 H2 H3 H4 H5 H6 H7. cbn [EthBytesToUint64]. f_equal.
  rewrite (lor_shiftl_add _ _ 8) by lia.
  rewrite (lor_shiftl_add _ _ 16) by lia.
  rewrite (lor_shiftl_add _ _ 24) by lia.
  rewrite (lor_shiftl_add _ _ 32) by lia.
  rewrite (lor_shiftl_add _ _ 40) by lia.
  rewrite (lor_shiftl_add _ _ 48) by lia.
  rewrite (lor_shiftl_add _ _ 56) by lia.
  reflexivity.
Qed.

(** A byte of [u]: bits [k] to [k + 7]. *)
Lemma byte_at_range (u k : Z) : 0 <= Z.shiftr u k mod 256 < 256.
Proof. apply Z.mod_pos_bound; lia. Qed.

Lemma is_bytes_cons n b l :
  is_bytes (S n) (b :: l) = true <-> 0 <= b < 256 /\ is_bytes n l = true.
Proof.
  unfold is_bytes, is_byte. cbn [length forallb Nat.eqb].
  rewrite !andb_true_iff, Z.leb_le, Z.ltb_lt. tauto.
Qed.

Lemma is_bytes_nil l : is_bytes 0 l = true <-> l = [].
Proof.
  unfold is_bytes. destruct l; cbn; [tauto|].
  split; discriminate.
Qed.

(** Encoding a [uint32] never fails, yields four bytes, and decoding them
    gives the number back. *)
Theorem Uint32_round_trip (u : Z) :
  0 <= u < 2 ^ 32 ->
  snd (Uint32ToEthBytes u) = None
  /\ is_bytes 4 (fst (Uint32ToEthBytes u)) = true
  /\ EthBytesToUint32 (fst (Uint32ToEthBytes u)) = Some u.
Proof.
  intros Hu. cbn [Uint32ToEthBytes fst snd].
  split; [reflexivity|]. split.
  - rewrite !is_bytes_cons, is_bytes_nil.
    repeat split; try apply byte_at_range; apply Z.mod_pos_bound; lia.
  - rewrite Uint32_of_bytes
      by (try apply byte_at_range; apply Z.mod_pos_bound; lia).
    f_equal. rewrite !Z.shiftr_div_pow2 by lia.
    change (2 ^ 8) with 256. change (2 ^ 16) with 65536.
    change (2 ^ 24) with 16777216. change (2 ^ 32) with 4294967296 in Hu.
    Z.to_euclidean_division_equations; lia.
Qed.

Lemma Uint32_round_trip_witness :
  EthBytesToUint32 (fst (Uint32ToEthBytes 3735928559)) = Some 3735928559
  /\ fst (Uint32ToEthBytes 3735928559) = [0xde; 0xad; 0xbe; 0xef].
Proof.
  split; [|reflexivity].
  apply (Uint32_round_trip 3735928559). lia.
Defined.

(** The same for a [uint64] and eight bytes. *)
Theorem Uint64_round_trip (u : Z) :
  0 <= u < 2 ^ 64 ->
  snd (Uint64ToEthBytes u) = None
  /\ is_bytes 8 (fst (Uint64ToEthBytes u)) = true
  /\ EthBytesToUint64 (fst (Uint64ToEthBytes u)) = Some u.
Proof.
  intros Hu. cbn [Uint64ToEthBytes fst snd].
  split; [reflexivity|]. split.
  - rewrite !is_bytes_cons, is_bytes_nil.
    repeat split; try apply byte_at_range; apply Z.mod_pos_bound; lia.
  - rewrite Uint64_of_bytes
      by (try apply byte_at_range; apply Z.mod_pos_bound; lia).
    f_equal. rewrite !Z.shiftr_div_pow2 by lia.
    change (2 ^ 8) with 256. change (2 ^ 16) with 65536.
    change (2 ^ 24) with 16777216. change (2 ^ 32) with 4294967296.
    change (2 ^ 40) with 1099511627776.
    change (2 ^ 48) with 281474976710656.
    change (2 ^ 56) with 72057594037927936.
    change (2 ^ 64) with 18446744073709551616 in Hu.
    Z.to_euclidean_division_equations; lia.
Qed.

Lemma Uint64_round_trip_witness :
  EthBytesToUint64 (fst (Uint64ToEthBytes 1700000000)) = Some 1700000000.
Proof.
  apply (Uint64_round_trip 1700000000). lia.
Defined.

Ltac split_bytes H :=
  repeat match type of H with
         | is_bytes (S _) (_ :: _) = true =>
             apply is_bytes_cons in H;
             let Hb := fresh "Hb" in destruct H as [Hb H]
         | is_bytes (S _) ?l = true => destruct l; [discriminate H|]
         | is_bytes 0 ?l = true => apply is_bytes_nil in H; subst l
         end.

(** Decoding four (eight) bytes and encoding the number gives the bytes
    back: the two directions are inverse on slices of the exact length. *)
Theorem EthBytes_decode_then_encode :
  (forall b, is_bytes 4 b = true ->
             exists u, EthBytesToUint32 b = Some u /\ 0 <= u < 2 ^ 32
                       /\ Uint32ToEthBytes u = (b, None))
  /\ (forall b, is_bytes 8 b = true ->
                exists u, EthBytesToUint64 b = Some u /\ 0 <= u < 2 ^ 64
                          /\ Uint64ToEthBytes u = (b, None)).
Proof.
  split; intros b Hb.
  - split_bytes Hb.
    eexists. split; [apply Uint32_of_bytes; assumption|].
    unfold Uint32ToEthBytes. rewrite !Z.shiftr_div_pow2 by lia.
    change (2 ^ 8) with 256. change (2 ^ 16) with 65536.
    change (2 ^ 24) with 16777216. change (2 ^ 32) with 4294967296.
    split; [lia|].
    repeat f_equal; Z.to_euclidean_division_equations; lia.
  - split_bytes Hb.
    eexists. split; [apply Uint64_of_bytes; assumption|].
    unfold Uint64ToEthBytes. rewrite !Z.shiftr_div_pow2 by lia.
    change (2 ^ 8) with 256. change (2 ^ 16) with 65536.
    change (2 ^ 24) with 16777216. change (2 ^ 32) with 4294967296.
    change (2 ^ 40) with 1099511627776.
    change (2 ^ 48) with 281474976710656.
    change (2 ^ 56) with 72057594037927936.
    change (2 ^ 64) with 18446744073709551616.
    split; [lia|].
    repeat f_equal; Z.to_euclidean_division_equations; lia.
Qed.

(** The decoders panic exactly on slices that are too short, and read
    nothing beyond the first four (eight) bytes. *)
Theorem EthBytes_bounds :
  (forall b, EthBytesToUint32 b = None <-> (length b < 4)%nat)
  /\ (forall b, EthBytesToUint64 b = None <-> (length b < 8)%nat)
  /\ (forall b rest, length b = 4%nat ->
                     EthBytesToUint32 (b ++ rest) = EthBytesToUint32 b)
  /\ (forall b rest, length b = 8%nat ->
                     EthBytesToUint64 (b ++ rest) = EthBytesToUint64 b).
Proof.
  repeat apply conj.
  - intros b. do 4 (destruct b as [|? b]; [cbn; split; [lia|reflexivity]|]).
    cbn. split; [discriminate | lia].
  - intros b. do 8 (destruct b as [|? b]; [cbn; split; [lia|reflexivity]|]).
    cbn. split; [discriminate | lia].
  - intros b rest Hb.
    do 4 (destruct b as [|? b]; [discriminate Hb|]). reflexivity.
  - intros b rest Hb.
    do 8 (destruct b as [|? b]; [discriminate Hb|]). reflexivity.
Qed.

End EthBytes.

(** ** The proof-of-work search *)

(** A check that returns was made with a difficulty between 0 and 32. *)
Lemma CheckPoW_returns_in_range (h : Utils.Hash) (difficulty : Z) (b : bool) :
  Utils.CheckPoW h difficulty = Some b -> 0 <= difficulty <= 32.
Proof.
  intros H.
  destruct (Z_lt_dec difficulty 0) as [L|L];
    [rewrite CheckPoW_panics in H by lia; discriminate|].
  destruct (Z_lt_dec 32 difficulty) as [G|G];
    [rewrite CheckPoW_panics in H by lia; discriminate|].
  lia.
Qed.

Section ProofOfWorkSearchFacts.
Import Utils.

Variable PoWData : Type.
Variable IncrementNonce : PoWData -> PoWData.
Variable json_Marshal : PoWData -> list Z * option error.
Variable HashBytes : list Z -> Hash.

Local Abbreviation steps := (nonce_steps IncrementNonce).
Local Abbreviation hash := (hash_of json_Marshal HashBytes).
Local Abbreviation PoW_loop := (PoW_loop PoWData IncrementNonce json_Marshal HashBytes).
Local Abbreviation PoW := (PoW PoWData IncrementNonce json_Marshal HashBytes).

Lemma steps_succ k data :
  steps (S k) data = steps k (IncrementNonce data).
Proof. unfold nonce_steps. apply Nat.iter_succ_r. Qed.

(** What a run of the loop that returns has seen, when it is entered with
    the hash of marshalled [data]. *)
Lemma PoW_loop_returns fuel : forall data difficulty r,
  snd (json_Marshal data) = None ->
  PoW_loop fuel data (hash data) difficulty = Returns r ->
  exists k,
    (k <= S fuel)%nat
    /\ (forall j, (j < k)%nat ->
                  snd (json_Marshal (steps j data)) = None
                  /\ CheckPoW (hash (steps j data)) difficulty = Some false)
    /\ ((snd (json_Marshal (steps k data)) = None
         /\ CheckPoW (hash (steps k data)) difficulty = Some true
         /\ r = (Some (steps k data), None))
        \/ (exists e, snd (json_Marshal (steps k data)) = Some e
                      /\ r = (None, Some e))).
Proof.
  induction fuel as [|fuel IH]; intros data difficulty r Hm H;
    cbn [Utils.PoW_loop] in H;
    destruct (CheckPoW (hash data) difficulty) as [[|]|] eqn:Hc;
    try discriminate.
  - injection H as <-. exists O. split; [lia|]. split; [intros j Hj; lia|].
    left. auto.
  - injection H as <-. exists O. split; [lia|]. split; [intros j Hj; lia|].
    left. auto.
  - destruct (json_Marshal (IncrementNonce data)) as [b [e|]] eqn:Hm'.
    + injection H as <-. exists 1%nat. split; [lia|]. split.
      * intros j Hj. assert (j = O) by lia; subst j. auto.
      * right. exists e. cbn. rewrite Hm'. auto.
    + assert (Hb : HashBytes b = hash (IncrementNonce data))
        by (unfold hash_of; now rewrite Hm').
      rewrite Hb in H.
      destruct (IH (IncrementNonce data) difficulty r) as (k & Hk & Hlt & Hend);
        [now rewrite Hm' | exact H |].
      exists (S k). split; [lia|]. split.
      * intros [|j] Hj; [auto|]. rewrite steps_succ. apply Hlt. lia.
      * rewrite steps_succ. exact Hend.
Qed.

(** The loop returns the first data whose hash passes, given the fuel. *)
Lemma PoW_loop_finds k : forall fuel data difficulty,
  (k <= fuel)%nat ->
  (forall j, (j <= k)%nat -> snd (json_Marshal (steps j data)) = None) ->
  (forall j, (j < k)%nat ->
             CheckPoW (hash (steps j data)) difficulty = Some false) ->
  CheckPoW (hash (steps k data)) difficulty = Some true ->
  PoW_loop fuel data (hash data) difficulty
  = Returns (Some (steps k data), None).
Proof.
  induction k as [|k IH]; intros fuel data difficulty Hf Hm Hlt Hk.
  - cbn in Hk. destruct fuel; cbn [Utils.PoW_loop]; now rewrite Hk.
  - destruct fuel as [|fuel]; [lia|]. cbn [Utils.PoW_loop].
    pose proof (Hlt O ltac:(lia)) as H0. cbn in H0. rewrite H0.
    pose proof (Hm 1%nat ltac:(lia)) as Hm1. cbn in Hm1.
    destruct (json_Marshal (IncrementNonce data)) as [b [e|]] eqn:Hm';
      [discriminate Hm1|].
    assert (Hb : HashBytes b = hash (IncrementNonce data))
      by (unfold hash_of; now rewrite Hm').
    rewrite Hb, steps_succ. apply IH; [lia | | |].
    + intros j Hj. rewrite <- steps_succ. apply Hm. lia.
    + intros j Hj. rewrite <- steps_succ. apply Hlt. lia.
    + now rewrite <- steps_succ.
Qed.

Lemma PoW_enters_loop fuel data difficulty :
  snd (json_Marshal data) = None ->
  PoW fuel data difficulty = PoW_loop fuel data (hash data) difficulty.
Proof.
  intros Hm. unfold Utils.PoW, hash_of.
  destruct (json_Marshal data) as [b [e|]]; [discriminate Hm | reflexivity].
Qed.

(** Data returned by [PoW] passes the check and is the first to do so:
    it is the input after some [k] increments, its hash has [difficulty]
    leading zero bytes, and the hash after fewer increments fails the
    check. *)
Theorem PoW_returns_first_valid (fuel : nat) (data data' : PoWData)
        (difficulty : Z) :
  PoW fuel data difficulty = Returns (Some data', None) ->
  exists k,
    (k <= S fuel)%nat
    /\ data' = steps k data
    /\ CheckPoW (hash data') difficulty = Some true
    /\ 0 <= difficulty <= LeadingZeroBytes (Bytes (hash data'))
    /\ (forall j, (j < k)%nat ->
                  CheckPoW (hash (steps j data)) difficulty = Some false).
Proof.
  intros H.
  assert (Hm : snd (json_Marshal data) = None).
  { unfold Utils.PoW in H.
    destruct (json_Marshal data) as [b [e|]]; [discriminate H | reflexivity]. }
  rewrite (PoW_enters_loop _ _ _ Hm) in H.
  destruct (PoW_loop_returns fuel data difficulty _ Hm H)
    as (k & Hk & Hlt & [(Hmk & Hc & Hr)|(e & _ & Hr)]); [|discriminate Hr].
  injection Hr as ->. exists k.
  repeat apply conj; auto; try (intros j Hj; apply Hlt, Hj).
  - pose proof (CheckPoW_returns_in_range _ _ _ Hc). lia.
  - pose proof (CheckPoW_returns_in_range _ _ _ Hc) as Hr.
    rewrite (CheckPoW_in_range _ _ Hr) in Hc.
    injection Hc as Hc. apply Z.leb_le in Hc. exact Hc.
Qed.

(** [PoW] finds the first valid data: when the hash passes the check
    after [k] increments and after no fewer, and marshalling succeeds up
    to there, the search returns the data after [k] increments (within any
    bound of at least [k] iterations). *)
Theorem PoW_finds_first_valid (k fuel : nat) (data : PoWData)
        (difficulty : Z) :
  (k <= fuel)%nat ->
  (forall j, (j <= k)%nat -> snd (json_Marshal (steps j data)) = None) ->
  (forall j, (j < k)%nat ->
             CheckPoW (hash (steps j data)) difficulty = Some false) ->
  CheckPoW (hash (steps k data)) difficulty = Some true ->
  PoW fuel data difficulty = Returns (Some (steps k data), None).
Proof.
  intros Hf Hm Hlt Hk.
  rewrite PoW_enters_loop by (apply (Hm O); lia).
  now apply PoW_loop_finds.
Qed.

(** At difficulty 0 every hash passes: [PoW] returns its input without
    incrementing the nonce.  At a difficulty below 0 or above 32 it
    panics on its first check.  Both when the input can be marshalled. *)
Theorem PoW_edge_difficulties (fuel : nat) (data : PoWData) :
  snd (json_Marshal data) = None ->
  PoW fuel data 0 = Returns (Some data, None)
  /\ (forall difficulty,
         difficulty < 0 \/ 32 < difficulty ->
         PoW fuel data difficulty = Panics).
Proof.
  intros Hm. split.
  - rewrite PoW_enters_loop by exact Hm.
    apply (PoW_loop_finds O fuel data 0); [lia | | |].
    + intros j Hj. assert (j = O) by lia; subst j. exact Hm.
    + intros j Hj; lia.
    + rewrite CheckPoW_in_range by lia. f_equal. apply Z.leb_le.
      apply LeadingZeroBytes_nonneg.
  - intros difficulty Hd. rewrite PoW_enters_loop by exact Hm.
    destruct fuel; cbn [Utils.PoW_loop];
      now rewrite (CheckPoW_panics _ _ Hd).
Qed.

(** A call of [PoW] that returns gives either data and no error, or no
    data and the error of [json.Marshal] on the data reached after some
    number of increments. *)
Theorem PoW_result_shape (fuel : nat) (data : PoWData) (difficulty : Z)
        (r : option PoWData * option error) :
  PoW fuel data difficulty = Returns r ->
  (exists data', r = (Some data', None))
  \/ (exists k e,
         (k <= S fuel)%nat
         /\ snd (json_Marshal (steps k data)) = Some e
         /\ r = (None, Some e)).
Proof.
  intros H. unfold Utils.PoW in H.
  destruct (json_Marshal data) as [b [e|]] eqn:Hm.
  - injection H as <-. right. exists O, e. cbn. rewrite Hm.
    repeat split; auto. lia.
  - assert (Hb : HashBytes b = hash data)
      by (unfold hash_of; now rewrite Hm).
    rewrite Hb in H.
    destruct (PoW_loop_returns fuel data difficulty r) as (k & Hk & _ & Hend);
      [now rewrite Hm | exact H |].
    destruct Hend as [(_ & _ & ->)|(e & He & ->)].
    + left. eexists; reflexivity.
    + right. exists k, e. auto.
Qed.

End ProofOfWorkSearchFacts.

Lemma PoW_returns_first_valid_witness :
  exists k,
    (k <= 6)%nat
    /\ 579%nat = nonce_steps S k 577%nat
    /\ Utils.CheckPoW (hash_of counter_Marshal sha_HashBytes 579%nat) 1
       = Some true
    /\ 0 <= 1 <= Utils.LeadingZeroBytes
                   (Utils.Bytes (hash_of counter_Marshal sha_HashBytes 579%nat))
    /\ (forall j, (j < k)%nat ->
                  Utils.CheckPoW
                    (hash_of counter_Marshal sha_HashBytes
                             (nonce_steps S j 577%nat)) 1
                  = Some false).
Proof.
  apply (PoW_returns_first_valid nat S counter_Marshal sha_HashBytes
           5 577%nat 579%nat 1).
  vm_compute; reflexivity.
Defined.

Lemma PoW_finds_first_valid_witness :
  Utils.PoW nat S counter_Marshal sha_HashBytes 10 577%nat 1
  = Utils.Returns (Some 579%nat, None).
Proof.
  apply (PoW_finds_first_valid nat S counter_Marshal sha_HashBytes
           2 10 577%nat 1).
  - lia.
  - intros j Hj; reflexivity.
  - intros j Hj. do 2 (destruct j as [|j]; [vm_compute; reflexivity|]). lia.
  - vm_compute; reflexivity.
Defined.

Lemma PoW_edge_difficulties_witness :
  Utils.PoW nat S counter_Marshal sha_HashBytes 0 7%nat 0
  = Utils.Returns (Some 7%nat, None)
  /\ (forall difficulty,
         difficulty < 0 \/ 32 < difficulty ->
         Utils.PoW nat S counter_Marshal sha_HashBytes 0 7%nat difficulty
         = Utils.Panics).
Proof.
  apply (PoW_edge_difficulties nat S counter_Marshal sha_HashBytes 0 7%nat).
  reflexivity.
Defined.

Lemma PoW_result_shape_witness :
  (exists data' : nat, (@None nat, Some (New "unsupported value")) = (Some data', None))
  \/ (exists k e,
         (k <= 4)%nat
         /\ snd ((fun n : nat =>
                    if Nat.eqb n 3 then ([], Some (New "unsupported value"))
                    else counter_Marshal n) (nonce_steps S k 2%nat))
            = Some e
         /\ (@None nat, Some (New "unsupported value")) = (None, Some e)).
Proof.
  apply (PoW_result_shape nat S
           (fun n : nat =>
              if Nat.eqb n 3 then ([], Some (New "unsupported value"))
              else counter_Marshal n)
           sha_HashBytes 3 2%nat 1).
  vm_compute; reflexivity.
Defined.

(** ** Reading the parts of an identifier *)
Section IdentifierParts.

(** The three ways [decodeDIDPartsFromID] ends. *)
Lemma decodeDIDPartsFromID_cases (E : Externals) (id : list Z) :
  ExternalsOK E ->
  let method := nth 0 id 0 in
  let v := nth 1 id 0 in
  (exists flag,
      table_entry method flag v
      /\ Core.decodeDIDPartsFromID E id
         = (method, flagBlockchain flag, flagNetworkID flag, None))
  \/ (~ In method (map fst Core.DIDMethodNetwork)
      /\ Core.decodeDIDPartsFromID E id
         = (Core.DIDMethodOther, UnknownChain, UnknownNetwork,
            Some (Var ErrDIDMethodNotSupported)))
  \/ (In method (map fst Core.DIDMethodNetwork)
      /\ (forall flag, ~ table_entry method flag v)
      /\ Core.decodeDIDPartsFromID E id
         = (Core.DIDMethodOther, UnknownChain, UnknownNetwork,
            Some (Var ErrBlockchainNotSupportedForDID))).
Proof.
  intros HE method v.
  destruct (map_get Z.eqb Core.DIDMethodNetwork method) as [networks|] eqn:Hm.
  - assert (Hin : In (method, networks) Core.DIDMethodNetwork)
      by now apply (map_get_In Z.eqb Z.eqb_eq _ _ _ Core_table_keys_NoDup).
    destruct (in_dec Z.eq_dec v (map snd networks)) as [Hv|Hv].
    + left. apply in_map_iff in Hv as ([flag v'] & Hv' & Hf).
      cbn in Hv'; subst v'. exists flag.
      assert (Ht : table_entry method flag v) by (now exists networks).
      split; [exact Ht|].
      destruct (Find_by_value_of_entry E method flag v HE Ht) as [Fb Fn].
      unfold Core.decodeDIDPartsFromID. fold method. fold v.
      now rewrite Fb, Fn.
    + right. right. split; [now apply (in_map fst) in Hin|]. split.
      * intros flag (n' & H1 & H2).
        apply (map_get_In Z.eqb Z.eqb_eq _ _ _ Core_table_keys_NoDup) in H1.
        assert (n' = networks) by congruence; subst n'.
        apply Hv. now apply (in_map snd) in H2.
      * unfold Core.decodeDIDPartsFromID,
          Core.FindBlockchainForDIDMethodByValue. fold method. fold v.
        now rewrite Hm, (range_find_value_absent_any_order E networks v HE Hv).
  - right. left. split.
    + now apply (map_get_None Z.eqb Z.eqb_eq).
    + unfold Core.decodeDIDPartsFromID,
        Core.FindBlockchainForDIDMethodByValue. fold method.
      now rewrite Hm.
Qed.

(** [decodeDIDPartsFromID] fails with [ErrDIDMethodNotSupported] when the
    method byte has no table and with [ErrBlockchainNotSupportedForDID]
    when the table has no entry for the second byte; it never fails with
    [ErrNetworkNotSupportedForDID] or [ErrMethodUnknown], and with an error
    it returns the values for "unknown". *)
Theorem decodeDIDPartsFromID_errors (E : Externals) (id : list Z)
        (method : Z) (blockchain networkID : string) (e : error) :
  ExternalsOK E ->
  Core.decodeDIDPartsFromID E id = (method, blockchain, networkID, Some e) ->
  method = Core.DIDMethodOther
  /\ blockchain = UnknownChain /\ networkID = UnknownNetwork
  /\ ((e = Var ErrDIDMethodNotSupported
       /\ ~ In (nth 0 id 0) (map fst Core.DIDMethodNetwork))
      \/ (e = Var ErrBlockchainNotSupportedForDID
          /\ In (nth 0 id 0) (map fst Core.DIDMethodNetwork)
          /\ forall flag, ~ table_entry (nth 0 id 0) flag (nth 1 id 0)))
  /\ e <> Var ErrNetworkNotSupportedForDID
  /\ errors_Is e ErrMethodUnknown = false.
Proof.
  intros HE H.
  destruct (decodeDIDPartsFromID_cases E id HE)
    as [(flag & _ & R)|[(Hn & R)|(Hi & Ha & R)]];
    rewrite R in H; inversion H; subst;
    repeat apply conj; auto; try discriminate.
Qed.

Lemma decodeDIDPartsFromID_errors_witness :
  Core.DIDMethodOther = Core.DIDMethodOther
  /\ UnknownChain = UnknownChain /\ UnknownNetwork = UnknownNetwork
  /\ ((Var ErrBlockchainNotSupportedForDID = Var ErrDIDMethodNotSupported
       /\ ~ In (nth 0 [1; 0x33] 0) (map fst Core.DIDMethodNetwork))
      \/ (Var ErrBlockchainNotSupportedForDID
          = Var ErrBlockchainNotSupportedForDID
          /\ In (nth 0 [1; 0x33] 0) (map fst Core.DIDMethodNetwork)
          /\ forall flag,
              ~ table_entry (nth 0 [1; 0x33] 0) flag (nth 1 [1; 0x33] 0)))
  /\ Var ErrBlockchainNotSupportedForDID <> Var ErrNetworkNotSupportedForDID
  /\ errors_Is (Var ErrBlockchainNotSupportedForDID) ErrMethodUnknown = false.
Proof.
  apply (decodeDIDPartsFromID_errors Reference.externals [1; 0x33]
           Core.DIDMethodOther UnknownChain UnknownNetwork
           (Var ErrBlockchainNotSupportedForDID) Reference_externals_ok).
  vm_compute; reflexivity.
Defined.

Lemma table_entry_flag_unique method flag flag' sb :
  table_entry method flag sb -> table_entry method flag' sb -> flag' = flag.
Proof.
  intros Ht Ht'.
  destruct (Find_by_value_of_entry Reference.externals method flag sb
              Reference_externals_ok Ht) as [Fb Fn].
  destruct (Find_by_value_of_entry Reference.externals method flag' sb
              Reference_externals_ok Ht') as [Fb' Fn'].
  destruct flag as [b n], flag' as [b' n']; cbn in *.
  congruence.
Qed.

Lemma known_method_not_other method :
  known_method method -> method <> Core.DIDMethodOther.
Proof. intros [<-|[<-|[]]]; discriminate. Qed.

Lemma known_method_entry_supported method flag sb :
  known_method method -> table_entry method flag sb ->
  Core.isUnsupportedDID method (flagBlockchain flag) (flagNetworkID flag)
  = false.
Proof.
  intros Hk _. unfold Core.isUnsupportedDID.
  replace (method =? Core.DIDMethodOther) with false; [reflexivity|].
  symmetry. apply Z.eqb_neq. now apply known_method_not_other.
Qed.

(** The accessors invert the construction of an identifier: for a type
    built by [BuildDIDType] and any genesis, [MethodFromID],
    [BlockchainFromID] and [NetworkIDFromID] applied to [NewID] return the
    method, the blockchain ([ReadOnly] for [NoChain]) and the network, with
    no error, whatever the order in which [range] visits the tables. *)
Theorem ID_accessors_round_trip (E : Externals) (method : Z)
        (blockchain network : string) (typ genesis : list Z) :
  ExternalsOK E ->
  Core.BuildDIDType method blockchain network = (typ, None) ->
  let id := NewID E typ genesis in
  Core.MethodFromID E id = (method, None)
  /\ Core.BlockchainFromID E id = (normalized blockchain, None)
  /\ Core.NetworkIDFromID E id = (network, None).
Proof.
  intros HE Hb id.
  destruct (BuildDIDType_cases method blockchain network)
    as [(_ & R)|[(_ & _ & R)|(Hk & sb & Ht & R)]];
    rewrite R in Hb; try discriminate.
  injection Hb as <-.
  assert (Hd : Core.decodeDIDPartsFromID E id
               = (method, normalized blockchain, network, None)).
  { destruct (decodeDIDPartsFromID_cases E id HE)
      as [(flag & Ht' & R')|[(Hn & _)|(_ & Ha & _)]].
    - cbn in Ht'. rewrite R'. cbn.
      rewrite (table_entry_flag_unique method _ flag sb Ht Ht').
      reflexivity.
    - exfalso. apply Hn. cbn.
      destruct Ht as (networks & H1 & _). now apply (in_map fst) in H1.
    - exfalso. exact (Ha _ Ht). }
  pose proof (known_method_entry_supported method _ sb Hk Ht) as Hs.
  cbn [flagBlockchain flagNetworkID] in Hs.
  unfold Core.MethodFromID, Core.BlockchainFromID, Core.NetworkIDFromID.
  rewrite Hd, Hs. auto.
Qed.

Lemma ID_accessors_round_trip_witness :
  let id := NewID Reference.externals [2; 0] (repeat 9 27) in
  Core.MethodFromID Reference.externals id = (Core.DIDMethodPolygonID, None)
  /\ Core.BlockchainFromID Reference.externals id = (ReadOnly, None)
  /\ Core.NetworkIDFromID Reference.externals id = (NoNetwork, None).
Proof.
  apply (ID_accessors_round_trip Reference.externals Core.DIDMethodPolygonID
           NoChain NoNetwork [2; 0] (repeat 9 27) Reference_externals_ok).
  reflexivity.
Defined.

(** On an identifier of the other-method type [{0xFF, 0xFF}], such as
    the fallback builds, the three accessors return the values for
    "unknown" and the error [ErrMethodUnknown]. *)
Theorem ID_accessors_other_method (E : Externals) (id : list Z) :
  ExternalsOK E ->
  nth 0 id 0 = Core.DIDMethodOther -> nth 1 id 0 = 255 ->
  let e := Errorf (Var ErrMethodUnknown) "unsupported DID" in
  Core.MethodFromID E id = (Core.DIDMethodOther, Some e)
  /\ Core.BlockchainFromID E id = (UnknownChain, Some e)
  /\ Core.NetworkIDFromID E id = (UnknownNetwork, Some e).
Proof.
  intros HE H0 H1 e.
  unfold Core.MethodFromID, Core.BlockchainFromID, Core.NetworkIDFromID.
  rewrite (decodeDIDPartsFromID_other E id HE H0 H1).
  repeat split.
Qed.

Lemma ID_accessors_other_method_witness :
  let id := Core.newIDFromUnsupportedDID Reference.externals did_foo in
  let e := Errorf (Var ErrMethodUnknown) "unsupported DID" in
  Core.MethodFromID Reference.externals id = (Core.DIDMethodOther, Some e)
  /\ Core.BlockchainFromID Reference.externals id = (UnknownChain, Some e)
  /\ Core.NetworkIDFromID Reference.externals id = (UnknownNetwork, Some e).
Proof.
  apply (ID_accessors_other_method Reference.externals
           (Core.newIDFromUnsupportedDID Reference.externals did_foo)
           Reference_externals_ok);
    vm_compute; reflexivity.
Defined.

(** Distinct bytes print as distinct method names. *)
Lemma DIDMethod_String_table :
  forallb (fun i =>
             forallb (fun j =>
                        Nat.eqb i j
                        || negb (String.eqb
                                   (Core.DIDMethod_String (Z.of_nat i))
                                   (Core.DIDMethod_String (Z.of_nat j))))
                     (seq 0 256))
          (seq 0 256) = true.
Proof. vm_compute; reflexivity. Qed.

Lemma DIDMethod_String_inj (m1 m2 : Z) :
  0 <= m1 < 256 -> 0 <= m2 < 256 ->
  Core.DIDMethod_String m1 = Core.DIDMethod_String m2 -> m1 = m2.
Proof.
  intros H1 H2 Heq.
  pose proof DIDMethod_String_table as T.
  rewrite forallb_forall in T.
  specialize (T (Z.to_nat m1) ltac:(apply in_seq; lia)).
  rewrite forallb_forall in T.
  specialize (T (Z.to_nat m2) ltac:(apply in_seq; lia)).
  rewrite !Z2Nat.id in T by lia.
  rewrite Heq, String.eqb_refl in T. cbn [negb] in T.
  rewrite orb_false_r in T. apply Nat.eqb_eq in T. lia.
Qed.

(** [DIDMethod.String] is injective on bytes: two method bytes have the
    same name only if they are equal, so only the bytes of
    [DIDMethodIden3] and [DIDMethodPolygonID] print as "iden3" and
    "polygonid" (the on-chain variant [0x82] prints as "unknown<130>"). *)
Theorem DIDMethod_String_injective (m1 m2 : Z) :
  0 <= m1 < 256 -> 0 <= m2 < 256 ->
  (Core.DIDMethod_String m1 = Core.DIDMethod_String m2 <-> m1 = m2).
Proof.
  intros H1 H2. split; [now apply DIDMethod_String_inj | now intros ->].
Qed.

Lemma DIDMethod_String_injective_witness :
  (Core.DIDMethod_String Core.DIDMethodPolygonIDOnChain
   = Core.DIDMethod_String Core.DIDMethodPolygonID
   <-> Core.DIDMethodPolygonIDOnChain = Core.DIDMethodPolygonID)
  /\ Core.DIDMethod_String Core.DIDMethodPolygonIDOnChain
     = "unknown<130>"%string.
Proof.
  split; [|reflexivity].
  apply (DIDMethod_String_injective 130 2); lia.
Defined.

Lemma table_key_is_byte method :
  In method (map fst Core.DIDMethodNetwork) -> 0 <= method < 256.
Proof. intros [<-|[<-|[<-|[]]]]; cbv; split; congruence. Qed.

Lemma known_method_is_byte method : known_method method -> 0 <= method < 256.
Proof. intros [<-|[<-|[]]]; cbv; split; congruence. Qed.

(** What a successful [idFromDID] has checked. *)
Lemma idFromDID_inversion (E : Externals) (did : DID) (id : list Z)
      (err : option error) :
  ExternalsOK E ->
  (exists m, known_method m /\ Core.DIDMethod_String m = Method did) ->
  Core.idFromDID E did = (id, err) ->
  match err with
  | Some e => errors_Is e ErrMethodUnknown = false
  | None =>
      (1 <= length (IDStrings did) <= 3)%nat
      /\ IDFromString E (last_segment did) = (id, None)
      /\ CheckChecksum E id = true
      /\ exists flag,
          table_entry (nth 0 id 0) flag (nth 1 id 0)
          /\ Core.DIDMethod_String (nth 0 id 0) = Method did
          /\ ((1 < length (IDStrings did))%nat ->
              flagBlockchain flag = segment did 0)
          /\ ((2 < length (IDStrings did))%nat ->
              flagNetworkID flag = segment did 1)
  end.
Proof.
  intros HE Hk H. unfold Core.idFromDID in H.
  apply (method_found_iff E did HE) in Hk. rewrite Hk in H. cbn [negb] in H.
  destruct ((3 <? length (IDStrings did)) || (length (IDStrings did) <? 1))%nat
    eqn:Hn; [injection H as <- <-; reflexivity|].
  apply orb_false_iff in Hn as [Hn3 Hn1].
  apply Nat.ltb_ge in Hn3, Hn1.
  fold (last_segment did) in H.
  destruct (IDFromString E (last_segment did)) as [id' [e|]] eqn:Hid;
    [injection H as <- <-; reflexivity|].
  destruct (CheckChecksum E id') eqn:Hc; cbn [negb] in H;
    [|injection H as <- <-; reflexivity].
  destruct (decodeDIDPartsFromID_cases E id' HE)
    as [(flag & Ht & R)|[(_ & R)|(_ & _ & R)]]; rewrite R in H;
    try (injection H as <- <-; reflexivity).
  destruct (negb (String.eqb (Core.DIDMethod_String (nth 0 id' 0))
                             (Method did))) eqn:Em;
    [injection H as <- <-; reflexivity|].
  apply negb_false_iff, String.eqb_eq in Em.
  fold (segment did 0) in H. fold (segment did 1) in H.
  destruct ((1 <? length (IDStrings did))%nat
            && negb (String.eqb (flagBlockchain flag) (segment did 0)))
    eqn:Eb; [injection H as <- <-; reflexivity|].
  destruct ((2 <? length (IDStrings did))%nat
            && negb (String.eqb (flagNetworkID flag) (segment did 1)))
    eqn:En; injection H as <- <-; [reflexivity|].
  repeat apply conj; auto; try lia.
  exists flag. repeat apply conj; auto.
  - intros Hl. apply andb_false_iff in Eb as [Eb|Eb].
    + apply Nat.ltb_ge in Eb. lia.
    + now apply negb_false_iff, String.eqb_eq in Eb.
  - intros Hl. apply andb_false_iff in En as [En|En].
    + apply Nat.ltb_ge in En. lia.
    + now apply negb_false_iff, String.eqb_eq in En.
Qed.

(** [idFromDID] returns an identifier without error only after every
    check has passed: the DID has one to three segments, its last segment
    parses to the identifier, the checksum is valid, the type bytes are an
    entry of the table of a known method whose name is the DID's method,
    and the blockchain and network segments, when present, are those of
    that entry. *)
Theorem idFromDID_success (E : Externals) (did : DID) (id : list Z) :
  ExternalsOK E ->
  Core.idFromDID E did = (id, None) ->
  (1 <= length (IDStrings did) <= 3)%nat
  /\ IDFromString E (last_segment did) = (id, None)
  /\ CheckChecksum E id = true
  /\ exists flag,
      known_method (nth 0 id 0)
      /\ table_entry (nth 0 id 0) flag (nth 1 id 0)
      /\ Core.DIDMethod_String (nth 0 id 0) = Method did
      /\ ((1 < length (IDStrings did))%nat ->
          flagBlockchain flag = segment did 0)
      /\ ((2 < length (IDStrings did))%nat ->
          flagNetworkID flag = segment did 1).
Proof.
  intros HE H.
  assert (Hk : exists m,
             known_method m /\ Core.DIDMethod_String m = Method did).
  { apply (method_found_iff E did HE).
    unfold Core.idFromDID in H.
    destruct (existsb _ _); [reflexivity | discriminate H]. }
  destruct (idFromDID_inversion E did id None HE Hk H)
    as (Hn & Hid & Hc & flag & Ht & Hm & Hb & Hw).
  split; [exact Hn|]. split; [exact Hid|]. split; [exact Hc|].
  exists flag. repeat apply conj; auto.
  destruct Hk as (m & Hkm & Hs).
  assert (nth 0 id 0 = m) as ->; [|exact Hkm].
  apply DIDMethod_String_inj; [| |congruence].
  - apply table_key_is_byte. destruct Ht as (networks & H1 & _).
    now apply (in_map fst) in H1.
  - now apply known_method_is_byte.
Qed.

Lemma idFromDID_success_witness :
  let did := did_of "iden3" ["polygon"; text_iden3_polygon_main]%string in
  (1 <= length (IDStrings did) <= 3)%nat
  /\ IDFromString Reference.externals (last_segment did)
     = (id_iden3_polygon_main, None)
  /\ CheckChecksum Reference.externals id_iden3_polygon_main = true
  /\ exists flag,
      known_method (nth 0 id_iden3_polygon_main 0)
      /\ table_entry (nth 0 id_iden3_polygon_main 0) flag
                     (nth 1 id_iden3_polygon_main 0)
      /\ Core.DIDMethod_String (nth 0 id_iden3_polygon_main 0) = Method did
      /\ ((1 < length (IDStrings did))%nat ->
          flagBlockchain flag = segment did 0)
      /\ ((2 < length (IDStrings did))%nat ->
          flagNetworkID flag = segment did 1).
Proof.
  apply (idFromDID_success Reference.externals
           (did_of "iden3" ["polygon"; text_iden3_polygon_main]%string)
           id_iden3_polygon_main Reference_externals_ok).
  vm_compute; reflexivity.
Defined.

(** For a DID of a known method [IDFromDID] is [idFromDID]: no error of
    [idFromDID] is [ErrMethodUnknown], so a malformed or inconsistent DID
    of a known method is reported and never replaced by the hash-derived
    identifier. *)
Theorem IDFromDID_known_method (E : Externals) (did : DID) :
  ExternalsOK E ->
  (exists m, known_method m /\ Core.DIDMethod_String m = Method did) ->
  Core.IDFromDID E did = Core.idFromDID E did
  /\ (forall e, snd (Core.idFromDID E did) = Some e ->
                errors_Is e ErrMethodUnknown = false).
Proof.
  intros HE Hk.
  destruct (Core.idFromDID E did) as [id err] eqn:H.
  pose proof (idFromDID_inversion E did id err HE Hk H) as Hinv.
  split.
  - unfold Core.IDFromDID. rewrite H.
    destruct err as [e|]; [now rewrite Hinv | reflexivity].
  - intros e He. cbn in He. subst err. exact Hinv.
Qed.

Lemma IDFromDID_known_method_witness :
  Core.IDFromDID Reference.externals did_iden3_eth
  = (id_iden3_polygon_main,
     Some (Errorf (Var ErrIncorrectDID)
                  "blockchains in ID and DID are different")).
Proof.
  assert (Hk : exists m,
             known_method m
             /\ Core.DIDMethod_String m = Method did_iden3_eth)
    by (exists 1; split; [left; reflexivity | reflexivity]).
  destruct (IDFromDID_known_method Reference.externals did_iden3_eth
              Reference_externals_ok Hk) as [H _].
  rewrite H. vm_compute; reflexivity.
Defined.

Lemma supported_entry_known method flag sb :
  table_entry method flag sb ->
  Core.isUnsupportedDID method (flagBlockchain flag) (flagNetworkID flag)
  = false ->
  known_method method.
Proof.
  intros (networks & H1 & H2) Hs.
  destruct H1 as [H|[H|[H|[]]]]; injection H as <- <-.
  - left; reflexivity.
  - right; left; reflexivity.
  - destruct H2 as [H|[]]. injection H as <- <-. discriminate Hs.
Qed.

(** [IDFromDID] inverts [ParseDIDFromID]: when [ParseDIDFromID] turns an
    identifier into a DID, the parser having returned the method name and
    the segments that were joined (blockchain, network unless empty, text
    of the identifier), and the text of the identifier parses back to it,
    then [IDFromDID] on that DID returns the identifier and no error. *)
Theorem ParseDIDFromID_then_IDFromDID
        (E : Externals) (id : list Z) (did : DID)
        (method : Z) (blockchain networkID : string) :
  ExternalsOK E ->
  Core.ParseDIDFromID E id = (Some did, None) ->
  Core.decodeDIDPartsFromID E id = (method, blockchain, networkID, None) ->
  Method did = Core.DIDMethod_String method ->
  IDStrings did
  = (if String.eqb networkID "" then [blockchain]
     else [blockchain; networkID]) ++ [ID_String E id] ->
  IDFromString E (ID_String E id) = (id, None) ->
  Core.IDFromDID E did = (id, None).
Proof.
  intros HE Hp Hd Hm Hs Hid.
  unfold Core.ParseDIDFromID in Hp.
  destruct (CheckChecksum E id) eqn:Hc; cbn [negb] in Hp; [|discriminate Hp].
  rewrite Hd in Hp.
  destruct (Core.isUnsupportedDID method blockchain networkID) eqn:Hu;
    [discriminate Hp|].
  assert (Hk : known_method method).
  { destruct (decodeDIDPartsFromID_cases E id HE)
      as [(flag & Ht & R)|[(_ & R)|(_ & _ & R)]];
      rewrite R in Hd; try discriminate Hd.
    injection Hd as Hd1 Hd2 Hd3. rewrite <- Hd2, <- Hd3, <- Hd1 in Hu.
    rewrite <- Hd1. exact (supported_entry_known _ _ _ Ht Hu). }
  assert (Hlen : (1 <= length (IDStrings did) <= 3)%nat)
    by (rewrite Hs; destruct (String.eqb networkID ""); cbn; lia).
  assert (Hlast : last_segment did = ID_String E id)
    by (unfold last_segment; rewrite Hs;
        destruct (String.eqb networkID ""); reflexivity).
  assert (Hkd : exists m,
              known_method m /\ Core.DIDMethod_String m = Method did)
    by (exists method; auto).
  rewrite <- Hlast in Hid.
  assert (R : Core.idFromDID E did = (id, None)).
  { rewrite (idFromDID_checked E did id _ _ _ HE Hkd Hlen Hid Hc Hd).
    rewrite (eqb_agrees _ _ (eq_sym Hm)).
    unfold segment. rewrite Hs.
    destruct (String.eqb networkID "") eqn:En; cbn.
    - now rewrite String.eqb_refl.
    - now rewrite !String.eqb_refl. }
  unfold Core.IDFromDID. now rewrite R.
Qed.

Lemma ParseDIDFromID_then_IDFromDID_witness :
  let id := NewID Reference.externals [1; 0] (repeat 3 27) in
  Core.ParseDIDFromID Reference.externals id
  = (Some (did_of "iden3"
                  ["readonly"; Reference.base58_Encode id]%string), None)
  /\ Core.IDFromDID Reference.externals
       (did_of "iden3" ["readonly"; Reference.base58_Encode id]%string)
     = (id, None).
Proof.
  assert (Hp : Core.ParseDIDFromID Reference.externals
                 (NewID Reference.externals [1; 0] (repeat 3 27))
               = (Some (did_of "iden3"
                          ["readonly";
                           Reference.base58_Encode
                             (NewID Reference.externals [1; 0]
                                    (repeat 3 27))]%string), None))
    by (vm_compute; reflexivity).
  split; [exact Hp|].
  apply (ParseDIDFromID_then_IDFromDID Reference.externals
           (NewID Reference.externals [1; 0] (repeat 3 27)) _
           1 "readonly" "" Reference_externals_ok Hp);
    vm_compute; reflexivity.
Defined.

End IdentifierParts.

(** ** The earlier codec *)
Section LegacyCodec.

Lemma Legacy_method_bytes_NoDup : NoDup (map snd CoreLegacy.DIDMethodByte).
Proof.
  cbn. repeat (apply NoDup_cons; [cbn; intuition discriminate|]).
  apply NoDup_nil.
Qed.

Lemma Legacy_Find_by_value_of_entry (E : Externals) method flag sb :
  ExternalsOK E -> legacy_table_entry method flag sb ->
  CoreLegacy.FindBlockchainForDIDMethodByValue E method sb
  = (flagBlockchain flag, None)
  /\ CoreLegacy.FindNetworkIDForDIDMethodByValue E method sb
     = (flagNetworkID flag, None).
Proof.
  intros HE (networks & H1 & H2).
  pose proof (Legacy_tables_NoDup method networks H1) as [_ Hv].
  apply (map_get_In String.eqb String.eqb_eq _ _ _ Legacy_table_keys_NoDup)
    in H1.
  unfold CoreLegacy.FindBlockchainForDIDMethodByValue,
    CoreLegacy.FindNetworkIDForDIDMethodByValue.
  rewrite H1, (range_find_value_any_order E networks flag sb HE Hv H2).
  split; reflexivity.
Qed.

Lemma legacy_known_has_table method fb :
  In (method, fb) CoreLegacy.DIDMethodByte ->
  exists networks,
    map_get String.eqb CoreLegacy.DIDMethodNetwork method = Some networks
    /\ In (method, networks) CoreLegacy.DIDMethodNetwork.
Proof.
  intros [H|[H|[]]]; injection H as <- <-; eexists;
    (split; [reflexivity|]); cbn; auto.
Qed.

(** The three ways the earlier [decodeDIDPartsFromID] ends. *)
Lemma Legacy_decode_cases (E : Externals) (id : list Z) :
  ExternalsOK E ->
  let fb := MethodByte id in
  let v := BlockchainNetworkByte id in
  (exists method flag,
      In (method, fb) CoreLegacy.DIDMethodByte
      /\ legacy_table_entry method flag v
      /\ CoreLegacy.decodeDIDPartsFromID E id
         = (method, flagBlockchain flag, flagNetworkID flag, None))
  \/ (~ In fb (map snd CoreLegacy.DIDMethodByte)
      /\ CoreLegacy.decodeDIDPartsFromID E id
         = (EmptyString, UnknownChain, UnknownNetwork,
            Some (Var ErrDIDMethodNotSupported)))
  \/ (exists method,
         In (method, fb) CoreLegacy.DIDMethodByte
         /\ (forall flag, ~ legacy_table_entry method flag v)
         /\ CoreLegacy.decodeDIDPartsFromID E id
            = (EmptyString, UnknownChain, UnknownNetwork,
               Some (Var ErrNetworkNotSupportedForDID))).
Proof.
  intros HE fb v.
  destruct (in_dec Z.eq_dec fb (map snd CoreLegacy.DIDMethodByte)) as [Hf|Hf].
  - apply in_map_iff in Hf as ([method fb'] & Hfb & Hin).
    cbn in Hfb; subst fb'.
    assert (Fm : CoreLegacy.FindDIDMethodByValue E fb = (method, None)).
    { unfold CoreLegacy.FindDIDMethodByValue.
      now rewrite (range_find_value_any_order E _ method fb HE
                     Legacy_method_bytes_NoDup Hin). }
    destruct (legacy_known_has_table method fb Hin) as (networks & Hg & Hn).
    destruct (in_dec Z.eq_dec v (map snd networks)) as [Hv|Hv].
    + left. apply in_map_iff in Hv as ([flag v'] & Hv' & Hfl).
      cbn in Hv'; subst v'. exists method, flag.
      assert (Ht : legacy_table_entry method flag v) by (now exists networks).
      split; [exact Hin|]. split; [exact Ht|].
      destruct (Legacy_Find_by_value_of_entry E method flag v HE Ht)
        as [Fb Fn].
      unfold CoreLegacy.decodeDIDPartsFromID. fold fb. fold v.
      now rewrite Fm, Fb, Fn.
    + right. right. exists method. split; [exact Hin|]. split.
      * intros flag (n' & H1 & H2).
        apply (map_get_In String.eqb String.eqb_eq _ _ _
                          Legacy_table_keys_NoDup) in H1.
        assert (n' = networks) by congruence; subst n'.
        apply Hv. now apply (in_map snd) in H2.
      * unfold CoreLegacy.decodeDIDPartsFromID. fold fb. fold v.
        rewrite Fm. unfold CoreLegacy.FindBlockchainForDIDMethodByValue.
        now rewrite Hg, (range_find_value_absent_any_order E networks v HE Hv).
  - right. left. split; [exact Hf|].
    unfold CoreLegacy.decodeDIDPartsFromID, CoreLegacy.FindDIDMethodByValue.
    fold fb.
    now rewrite (range_find_value_absent_any_order E _ fb HE Hf).
Qed.

Lemma legacy_table_entry_flag_unique method flag flag' sb :
  legacy_table_entry method flag sb -> legacy_table_entry method flag' sb ->
  flag' = flag.
Proof.
  intros Ht Ht'.
  destruct (Legacy_Find_by_value_of_entry Reference.externals method flag sb
              Reference_externals_ok Ht) as [Fb Fn].
  destruct (Legacy_Find_by_value_of_entry Reference.externals method flag' sb
              Reference_externals_ok Ht') as [Fb' Fn'].
  destruct flag as [b n], flag' as [b' n']; cbn in *.
  congruence.
Qed.

Lemma legacy_method_of_byte_unique m1 m2 fb :
  In (m1, fb) CoreLegacy.DIDMethodByte ->
  In (m2, fb) CoreLegacy.DIDMethodByte -> m1 = m2.
Proof.
  intros [H1|[H1|[]]] [H2|[H2|[]]];
    injection H1 as <- <-; injection H2 as <-; intros; congruence.
Qed.

(** The earlier codec round-trips: a type built by [BuildDIDType], put
    into an identifier with any genesis, decodes with
    [decodeDIDPartsFromID] to the method, the blockchain ([ReadOnly] for
    [NoChain]) and the network it was built from, whatever the order in
    which [range] visits the maps. *)
Theorem Legacy_type_round_trip (E : Externals) (method : string)
        (blockchain network : string) (typ genesis : list Z) :
  ExternalsOK E ->
  CoreLegacy.BuildDIDType method blockchain network = (typ, None) ->
  CoreLegacy.decodeDIDPartsFromID E (NewID E typ genesis)
  = (method, normalized blockchain, network, None).
Proof.
  intros HE Hb.
  destruct (Legacy_BuildDIDType_cases method blockchain network)
    as [(_ & R)|[(_ & _ & R)|(fb & sb & Hk & Ht & R)]];
    rewrite R in Hb; try discriminate.
  injection Hb as <-.
  pose proof (Legacy_decode_cases E (NewID E [fb; sb] genesis) HE) as C.
  cbv zeta in C.
  change (MethodByte (NewID E [fb; sb] genesis)) with fb in C.
  change (BlockchainNetworkByte (NewID E [fb; sb] genesis)) with sb in C.
  destruct C as [(m' & flag & Hm' & Ht' & R')
                |[(Hn & _)|(m' & Hm' & Ha & _)]].
  - rewrite R'.
    assert (m' = method) by exact (legacy_method_of_byte_unique _ _ _ Hm' Hk).
    subst m'.
    now rewrite (legacy_table_entry_flag_unique method _ flag sb Ht Ht').
  - exfalso. apply Hn. now apply (in_map snd) in Hk.
  - assert (m' = method) by exact (legacy_method_of_byte_unique _ _ _ Hm' Hk).
    subst m'. exfalso. exact (Ha _ Ht).
Qed.

Lemma Legacy_type_round_trip_witness :
  CoreLegacy.decodeDIDPartsFromID Reference.externals
    (NewID Reference.externals [2; 33] (repeat 5 27))
  = ("polygonid", "eth", "main", None)%string.
Proof.
  apply (Legacy_type_round_trip Reference.externals "polygonid" "eth" "main"
           [2; 33] (repeat 5 27) Reference_externals_ok).
  reflexivity.
Defined.

(** The earlier [decodeDIDPartsFromID] fails with [ErrDIDMethodNotSupported]
    when the first byte is no method byte (the other-method byte [0xFF]
    included) and with [ErrNetworkNotSupportedForDID] when the method's
    table has no entry for the second byte; with an error it returns the
    empty method and the values for "unknown". *)
Theorem Legacy_decode_errors (E : Externals) (id : list Z)
        (method blockchain networkID : string) (e : error) :
  ExternalsOK E ->
  CoreLegacy.decodeDIDPartsFromID E id
  = (method, blockchain, networkID, Some e) ->
  method = EmptyString
  /\ blockchain = UnknownChain /\ networkID = UnknownNetwork
  /\ ((e = Var ErrDIDMethodNotSupported
       /\ ~ In (MethodByte id) (map snd CoreLegacy.DIDMethodByte))
      \/ (e = Var ErrNetworkNotSupportedForDID
          /\ exists m,
              In (m, MethodByte id) CoreLegacy.DIDMethodByte
              /\ forall flag,
                  ~ legacy_table_entry m flag (BlockchainNetworkByte id))).
Proof.
  intros HE H.
  destruct (Legacy_decode_cases E id HE)
    as [(m' & flag & _ & _ & R)|[(Hn & R)|(m' & Hm' & Ha & R)]];
    rewrite R in H; inversion H; subst;
    repeat apply conj; auto.
  right. split; [reflexivity|]. now exists m'.
Qed.

Lemma Legacy_decode_errors_witness :
  CoreLegacy.decodeDIDPartsFromID Reference.externals id_other
  = (EmptyString, UnknownChain, UnknownNetwork,
     Some (Var ErrDIDMethodNotSupported))
  /\ ~ In (MethodByte id_other) (map snd CoreLegacy.DIDMethodByte).
Proof.
  assert (H : CoreLegacy.decodeDIDPartsFromID Reference.externals id_other
              = (EmptyString, UnknownChain, UnknownNetwork,
                 Some (Var ErrDIDMethodNotSupported)))
    by (vm_compute; reflexivity).
  split; [exact H|].
  destruct (Legacy_decode_errors Reference.externals id_other _ _ _ _
              Reference_externals_ok H) as (_ & _ & _ & [[_ Hn]|[Hc _]]);
    [exact Hn | discriminate Hc].
Defined.

(** What [Decompose] returns: with an error, the blockchain and network
    for "unknown"; without one, the blockchain and network decoded from
    the identifier's type bytes, after the identifier parsed out of the
    last of one to three segments passed its checksum, its method is the
    DID's, and the blockchain and network segments, when present, agree
    with the decoded ones.  [IDFromDID] returns the same identifier and
    error. *)
Theorem Legacy_Decompose_result (E : Externals) (did : DID)
        (blockchain networkID : string) (id : list Z) (err : option error) :
  CoreLegacy.Decompose E did = (blockchain, networkID, id, err) ->
  CoreLegacy.IDFromDID E did = (id, err)
  /\ match err with
     | Some _ => blockchain = UnknownChain /\ networkID = UnknownNetwork
     | None =>
         (1 <= length (IDStrings did) <= 3)%nat
         /\ IDFromString E (last_segment did) = (id, None)
         /\ CheckChecksum E id = true
         /\ CoreLegacy.decodeDIDPartsFromID E id
            = (Method did, blockchain, networkID, None)
         /\ ((1 < length (IDStrings did))%nat -> blockchain = segment did 0)
         /\ ((2 < length (IDStrings did))%nat -> networkID = segment did 1)
     end.
Proof.
  intros H. split; [unfold CoreLegacy.IDFromDID; now rewrite H|].
  unfold CoreLegacy.Decompose, CoreLegacy.decodeIDFromDID in H.
  destruct (3 <? length (IDStrings did))%nat eqn:H3;
    [injection H as <- <- <- <-; auto|].
  destruct (length (IDStrings did) <? 1)%nat eqn:H1;
    [injection H as <- <- <- <-; auto|].
  apply Nat.ltb_ge in H3, H1.
  fold (last_segment did) in H.
  destruct (IDFromString E (last_segment did)) as [id' [e|]] eqn:Hid;
    [injection H as <- <- <- <-; auto|].
  destruct (CheckChecksum E id') eqn:Hc; cbn [negb] in H;
    [|injection H as <- <- <- <-; auto].
  destruct (CoreLegacy.decodeDIDPartsFromID E id')
    as [[[m b] n] [e|]] eqn:Hd;
    [injection H as <- <- <- <-; auto|].
  fold (segment did 0) in H. fold (segment did 1) in H.
  destruct (negb (String.eqb m (Method did))) eqn:Em;
    [injection H as <- <- <- <-; auto|].
  apply negb_false_iff, String.eqb_eq in Em. subst m.
  destruct ((1 <? length (IDStrings did))%nat
            && negb (String.eqb b (segment did 0))) eqn:Eb;
    [injection H as <- <- <- <-; auto|].
  destruct ((2 <? length (IDStrings did))%nat
            && negb (String.eqb n (segment did 1))) eqn:En;
    injection H as <- <- <- <-; [auto|].
  split; [lia|]. split; [reflexivity|]. split; [exact Hc|].
  split; [exact Hd|]. split.
  - intros Hl. apply andb_false_iff in Eb as [Eb|Eb].
    + apply Nat.ltb_ge in Eb. lia.
    + now apply negb_false_iff, String.eqb_eq in Eb.
  - intros Hl. apply andb_false_iff in En as [En|En].
    + apply Nat.ltb_ge in En. lia.
    + now apply negb_false_iff, String.eqb_eq in En.
Qed.

Lemma Legacy_Decompose_result_witness :
  let did := did_of "iden3" ["polygon"; "main"; text_iden3_polygon_main]%string in
  CoreLegacy.IDFromDID Reference.externals did
  = (id_iden3_polygon_main, None)
  /\ CoreLegacy.decodeDIDPartsFromID Reference.externals
       id_iden3_polygon_main
     = ("iden3", "polygon", "main", None)%string.
Proof.
  destruct (Legacy_Decompose_result Reference.externals
              (did_of "iden3"
                      ["polygon"; "main"; text_iden3_polygon_main]%string)
              "polygon" "main" id_iden3_polygon_main None)
    as (Hi & _ & _ & _ & Hd & _).
  - vm_compute; reflexivity.
  - split; [exact Hi | exact Hd].
Defined.



End LegacyCodec.

(** ** The contract client *)
Section ContractClient.
Import Utils.

Variables EthClient Account KeyStore Address Transaction : Type.
Variables ReceiptBody Signer BoundContract : Type.
Variable zeroAddress : Address.
Variable SuggestGasPrice : EthClient -> option Z * option Eth.error.
Variable NewKeyStoreTransactor :
  KeyStore -> Account ->
  option (Eth.TransactOpts Signer) * option Eth.error.
Variable TransactionReceipt :
  EthClient -> Transaction -> nat ->
  option (Eth.Receipt ReceiptBody) * option Eth.error.
Variable sinceStart : nat -> Z.

Local Abbreviation Client := (Eth.Client EthClient Account KeyStore).
Local Abbreviation CallAuth :=
  (@Eth.CallAuth EthClient Account KeyStore Transaction Signer
                 SuggestGasPrice NewKeyStoreTransactor).
Local Abbreviation WaitReceipt_loop :=
  (Eth.WaitReceipt_loop EthClient Account KeyStore Transaction ReceiptBody
                        TransactionReceipt sinceStart).
Local Abbreviation WaitReceipt :=
  (Eth.WaitReceipt EthClient Account KeyStore Transaction ReceiptBody
                   TransactionReceipt sinceStart).
Local Abbreviation Deploy :=
  (Eth.Deploy EthClient Account KeyStore Address Transaction ReceiptBody
              Signer BoundContract zeroAddress SuggestGasPrice
              NewKeyStoreTransactor TransactionReceipt sinceStart).
Local Abbreviation poll c tx i :=
  (TransactionReceipt (Eth.client _ _ _ c) tx i).
Local Abbreviation timeout c := (Eth.ReceiptTimeout _ _ _ c).

(** The options a callback of [CallAuth] receives: no value, a gas limit
    that is the caller's or 300000 when the caller's is 0, and the
    suggested gas price raised by a hundredth (rounded down), kept between
    the suggested price and 101 % of it. *)
Theorem CallAuth_options {S : Type} (c : Client) (gasLimit : Z)
        (fn : EthClient -> Eth.TransactOpts Signer -> S ->
              S * (option Transaction * option Eth.error))
        (s : S) (acc : Account) (price : Z) (auth : Eth.TransactOpts Signer) :
  Eth.account _ _ _ c = Some acc ->
  SuggestGasPrice (Eth.client _ _ _ c) = (Some price, None) ->
  NewKeyStoreTransactor (Eth.ks _ _ _ c) acc = (Some auth, None) ->
  exists auth',
    CallAuth c gasLimit fn s = Returns (fn (Eth.client _ _ _ c) auth' s)
    /\ Eth.optsSigner _ auth' = Eth.optsSigner _ auth
    /\ Eth.Value _ auth' = Some 0
    /\ Eth.GasLimit _ auth' = (if gasLimit =? 0 then 300000 else gasLimit)
    /\ Eth.GasLimit _ auth' <> 0
    /\ Eth.GasPrice _ auth' = Some (price + price / 100)
    /\ (0 <= price ->
        price <= price + price / 100
        /\ 100 * (price + price / 100) <= 101 * price).
Proof.
  intros Ha Hp Ht. unfold Eth.CallAuth. rewrite Ha, Hp, Ht.
  eexists. split; [reflexivity|].
  cbn [Eth.optsSigner Eth.Value Eth.GasLimit Eth.GasPrice].
  repeat apply conj; try reflexivity.
  - destruct (gasLimit =? 0) eqn:E; [lia | now apply Z.eqb_neq in E].
  - intros Hpos. split; Z.to_euclidean_division_equations; lia.
Qed.

(** What the loop of [WaitReceipt] returns when entered without receipt:
    nothing, the time being up, or the first receipt the node delivers. *)
Lemma WaitReceipt_loop_returns (c : Client) (tx : Transaction) fuel :
  forall i err receipt err',
    WaitReceipt_loop fuel c tx i None err = Returns (receipt, err') ->
    match receipt with
    | Some r =>
        exists p,
          (i <= p < i + fuel)%nat
          /\ (forall j, (i <= j <= p)%nat -> sinceStart j < timeout c)
          /\ (forall j, (i <= j < p)%nat -> fst (poll c tx j) = None)
          /\ poll c tx p = (Some r, err')
    | None =>
        exists k,
          (i <= k <= i + fuel)%nat
          /\ (forall j, (i <= j < k)%nat ->
                        sinceStart j < timeout c /\ fst (poll c tx j) = None)
          /\ timeout c <= sinceStart k
    end.
Proof.
  induction fuel as [|fuel IH]; intros i err receipt err' H;
    cbn [Eth.WaitReceipt_loop] in H;
    destruct (sinceStart i <? timeout c) eqn:Ht;
    try discriminate.
  - injection H as <- <-. exists i. apply Z.ltb_ge in Ht.
    split; [lia|]. split; [intros j Hj; lia | exact Ht].
  - apply Z.ltb_lt in Ht.
    destruct (poll c tx i) as [[r|] e] eqn:Hp.
    + assert (H' : Returns (Some r, e) = Returns (receipt, err'))
        by (destruct fuel; exact H).
      injection H' as <- <-. exists i.
      split; [lia|]. split; [|split; [intros j Hj; lia | exact Hp]].
      intros j Hj. assert (j = i) by lia. now subst j.
    + specialize (IH (S i) e receipt err' H).
      destruct receipt as [r|].
      * destruct IH as (p & Hp1 & Hp2 & Hp3 & Hp4). exists p.
        split; [lia|]. split; [|split; [|exact Hp4]].
        -- intros j Hj. destruct (Nat.eq_dec j i) as [->|Hne];
             [exact Ht | apply Hp2; lia].
        -- intros j Hj. destruct (Nat.eq_dec j i) as [->|Hne];
             [now rewrite Hp | apply Hp3; lia].
      * destruct IH as (k & Hk1 & Hk2 & Hk3). exists k.
        split; [lia|]. split; [|exact Hk3].
        intros j Hj. destruct (Nat.eq_dec j i) as [->|Hne];
          [rewrite Hp; auto | apply Hk2; lia].
  - injection H as <- <-. exists i. apply Z.ltb_ge in Ht.
    split; [lia|]. split; [intros j Hj; lia | exact Ht].
Qed.

(** [WaitReceipt] never returns nothing without the error
    [ErrReceiptNotRecieved], and then the time was up with no receipt seen;
    a receipt it returns is the first one the node delivered, polled
    before the timeout; with the failed status it comes with
    [ErrReceiptStatusFailed], otherwise with the error of that poll. *)
Theorem WaitReceipt_result (fuel : nat) (c : Client)
        (tx : option Transaction)
        (receipt : option (Eth.Receipt ReceiptBody))
        (err : option Eth.error) :
  WaitReceipt fuel c tx = Returns (receipt, err) ->
  exists t,
    tx = Some t
    /\ match receipt with
       | None =>
           err = Some Eth.ErrReceiptNotRecieved
           /\ exists k,
               (k <= fuel)%nat /\ timeout c <= sinceStart k
               /\ forall j, (j < k)%nat ->
                            sinceStart j < timeout c
                            /\ fst (poll c t j) = None
       | Some r =>
           exists p err0,
             (p < fuel)%nat
             /\ poll c t p = (Some r, err0)
             /\ (forall j, (j <= p)%nat -> sinceStart j < timeout c)
             /\ (forall j, (j < p)%nat -> fst (poll c t j) = None)
             /\ err = (if Eth.Status _ r =? Eth.ReceiptStatusFailed
                       then Some Eth.ErrReceiptStatusFailed else err0)
       end.
Proof.
  intros H. unfold Eth.WaitReceipt in H.
  destruct tx as [t|]; [|discriminate H]. exists t. split; [reflexivity|].
  destruct (WaitReceipt_loop fuel c t 0 None None) as [[r0 e0]| |] eqn:Hl;
    try discriminate H.
  pose proof (WaitReceipt_loop_returns c t fuel 0 None r0 e0 Hl) as L.
  destruct r0 as [r|].
  - destruct L as (p & Hp1 & Hp2 & Hp3 & Hp4).
    destruct (Eth.Status _ r =? Eth.ReceiptStatusFailed) eqn:Es;
      injection H as <- <-; exists p, e0; rewrite Es;
      (split; [lia|]); (split; [exact Hp4|]);
      (split; [intros j Hj; apply Hp2; lia|]);
      (split; [intros j Hj; apply Hp3; lia | reflexivity]).
  - injection H as <- <-. split; [reflexivity|].
    destruct L as (k & Hk1 & Hk2 & Hk3). exists k.
    split; [lia|]. split; [exact Hk3|].
    intros j Hj. apply Hk2. lia.
Qed.

(** The loop does not outlast its timeout: each pass without receipt
    sleeps at least 200 ms, so once the number of passes allowed covers the
    timeout the loop has returned. *)
Lemma WaitReceipt_loop_terminates (c : Client) (tx : Transaction) fuel :
  (forall i, sinceStart i + 200000000 <= sinceStart (S i)) ->
  forall i receipt err,
    timeout c <= sinceStart i + 200000000 * Z.of_nat fuel ->
    exists r, WaitReceipt_loop fuel c tx i receipt err = Returns r.
Proof.
  intros Hclock.
  induction fuel as [|fuel IH]; intros i receipt err Ht;
    cbn [Eth.WaitReceipt_loop]; destruct receipt as [r|];
    try (eexists; reflexivity).
  - replace (sinceStart i <? timeout c) with false
      by (symmetry; apply Z.ltb_ge; lia).
    eexists; reflexivity.
  - destruct (sinceStart i <? timeout c); [|eexists; reflexivity].
    destruct (poll c tx i) as [r e].
    apply IH. specialize (Hclock i). lia.
Qed.

(** [WaitReceipt] polls a bounded number of times: when every pass
    without receipt takes at least 200 ms, [WaitReceipt] returns within
    [n] passes for every [n] with [timeout <= n * 200 ms]; if the time is
    up at the first test it returns [ErrReceiptNotRecieved] whatever the
    node would answer. *)
Theorem WaitReceipt_bounded (fuel : nat) (c : Client) (tx : Transaction) :
  (forall i, sinceStart i + 200000000 <= sinceStart (S i)) ->
  0 <= sinceStart 0 ->
  timeout c <= 200000000 * Z.of_nat fuel ->
  (exists r, WaitReceipt fuel c (Some tx) = Returns r)
  /\ (timeout c <= sinceStart 0 ->
      WaitReceipt fuel c (Some tx)
      = Returns (None, Some Eth.ErrReceiptNotRecieved)).
Proof.
  intros Hclock H0 Ht. split.
  - destruct (WaitReceipt_loop_terminates c tx fuel Hclock 0 None None)
      as [[r e] Hr]; [lia|].
    unfold Eth.WaitReceipt. rewrite Hr.
    destruct r as [r|]; [|eexists; reflexivity].
    destruct (Eth.Status _ r =? Eth.ReceiptStatusFailed);
      eexists; reflexivity.
  - intros Hup. unfold Eth.WaitReceipt.
    destruct fuel; cbn [Eth.WaitReceipt_loop];
      replace (sinceStart 0 <? timeout c) with false
        by (symmetry; apply Z.ltb_ge; lia);
      reflexivity.
Qed.

Lemma WaitReceipt_no_error (fuel : nat) (c : Client)
      (tx : option Transaction) receipt :
  WaitReceipt fuel c tx = Returns (receipt, None) ->
  exists r, receipt = Some r /\ Eth.Status _ r <> Eth.ReceiptStatusFailed.
Proof.
  intros H. unfold Eth.WaitReceipt in H.
  destruct tx as [t|]; [|discriminate H].
  destruct (WaitReceipt_loop fuel c t 0 None None) as [[r0 e0]| |];
    try discriminate H.
  destruct r0 as [r|]; [|discriminate H].
  destruct (Eth.Status _ r =? Eth.ReceiptStatusFailed) eqn:Es;
    [discriminate H|].
  injection H as <- _. exists r. split; [reflexivity|].
  now apply Z.eqb_neq.
Qed.

Lemma WaitReceipt_error_keeps_data (fuel : nat) (c : Client)
      (tx : option Transaction) receipt e :
  WaitReceipt fuel c tx = Returns (receipt, Some e) -> exists t, tx = Some t.
Proof.
  intros H. unfold Eth.WaitReceipt in H.
  destruct tx as [t|]; [now exists t | discriminate H].
Qed.

(** What [Deploy] returns, by the error: none, and the contract data holds
    the address and transaction the deploy function returned (called with
    gas limit 1000000 and no value) and a receipt whose status is not
    "failed"; a "deployment failed" error, and the contract data is empty;
    a "wait receipt failed" error, and the contract data holds the address
    and the transaction and no receipt.  No other error is returned. *)
Theorem Deploy_result (fuel : nat) (c : Client) (name : string)
        (fn : EthClient -> Eth.TransactOpts Signer ->
              Address * option Transaction * BoundContract
              * option Eth.error)
        (cd : Eth.ContractData Address Transaction ReceiptBody)
        (err : option Eth.error) :
  Deploy fuel c name fn = Returns (cd, err) ->
  let deployed :=
    exists auth bound tx,
      fn (Eth.client _ _ _ c) auth
      = (Eth.cdAddress _ _ _ cd, Some tx, bound, None)
      /\ Eth.GasLimit _ auth = 1000000
      /\ Eth.Value _ auth = Some 0
      /\ Eth.cdTx _ _ _ cd = Some tx in
  match err with
  | None =>
      deployed
      /\ exists r, Eth.cdReceipt _ _ _ cd = Some r
                   /\ Eth.Status _ r <> Eth.ReceiptStatusFailed
  | Some (Eth.ErrorfDeploy n e) =>
      n = name /\ cd = Eth.mkContractData _ _ _ zeroAddress None None
  | Some (Eth.ErrorfWaitReceipt n e) =>
      n = name /\ deployed /\ Eth.cdReceipt _ _ _ cd = None
  | Some _ => False
  end.
Proof.
  intros H deployed. unfold Eth.Deploy, Eth.CallAuth in H.
  destruct (Eth.account _ _ _ c) as [acc|];
    [|injection H as <- <-; auto].
  destruct (SuggestGasPrice (Eth.client _ _ _ c)) as [gp [e|]];
    [injection H as <- <-; auto|].
  destruct gp as [gp|]; [|discriminate H].
  destruct (NewKeyStoreTransactor (Eth.ks _ _ _ c) acc) as [auth [e|]];
    [injection H as <- <-; auto|].
  destruct auth as [auth|]; [|discriminate H].
  cbn [Z.eqb] in H.
  match type of H with
  | context [fn ?cl ?a] => destruct (fn cl a) as [[[addr tx] bound] e] eqn:Hf
  end.
  destruct e as [e|]; [injection H as <- <-; auto|].
  destruct tx as [tx|]; [|discriminate H].
  cbn [Eth.cdAddress Eth.cdTx Eth.cdReceipt] in H.
  destruct (WaitReceipt fuel c (Some tx)) as [[receipt [e|]]| |] eqn:Hw;
    try discriminate H; injection H as <- <-.
  - split; [reflexivity|]. split; [|reflexivity].
    eexists _, bound, tx. split; [exact Hf|]. cbn. auto.
  - destruct (WaitReceipt_no_error fuel c _ _ Hw) as (r & -> & Hs).
    split; [|exists r; auto].
    eexists _, bound, tx. split; [exact Hf|]. cbn. auto.
Qed.

(** A client made by [NewClient] without account makes no authorized
    call: [CallAuth] returns [ErrAccountNil] and leaves the callback's
    variables as they were, and [Deploy] returns empty contract data and a
    "deployment failed" error that wraps [ErrAccountNil]. *)
Theorem Client_without_account (cl : EthClient) (keys : KeyStore) :
  let c := Eth.NewClient EthClient Account KeyStore cl None keys in
  (forall (S : Type) gasLimit fn (s : S),
      CallAuth c gasLimit fn s = Returns (s, (None, Some Eth.ErrAccountNil)))
  /\ (forall fuel name fn,
         exists e,
           Deploy fuel c name fn
           = Returns (Eth.mkContractData _ _ _ zeroAddress None None, Some e)
           /\ Eth.errors_Is e Eth.ErrAccountNil = true
           /\ Eth.Error e
              = ("deployment of " ++ name
                 ++ " failed: Authorized calls can't be made when the account is nil")%string).
Proof.
  intros c. split.
  - reflexivity.
  - intros fuel name fn. eexists. split; [reflexivity|].
    split; reflexivity.
Qed.

End ContractClient.

Lemma CallAuth_options_witness :
  exists auth' : Eth.TransactOpts unit,
    Eth.CallAuth unit nat unit nat unit sample_price sample_transactor
                 sample_client 0
                 (fun _ auth (s : Z) => (Eth.GasLimit _ auth, (None, None)))
                 0
    = Utils.Returns (Eth.GasLimit _ auth', (None, None))
    /\ Eth.GasLimit _ auth' = 300000
    /\ Eth.GasPrice _ auth' = Some 1010.
Proof.
  destruct (CallAuth_options unit nat unit nat unit sample_price
              sample_transactor sample_client 0
              (fun _ auth (s : Z) => (Eth.GasLimit _ auth, (None, None)))
              0 5%nat 1000 (Eth.mkTransactOpts unit tt None None 0)
              eq_refl eq_refl eq_refl)
    as (auth' & H1 & _ & _ & H2 & _ & H3 & _).
  exists auth'. split; [exact H1|]. split; [exact H2 | exact H3].
Defined.

Lemma WaitReceipt_result_witness :
  exists t,
    Some 9%nat = Some t
    /\ exists p err0,
        (p < 10)%nat
        /\ sample_receipts tt t p
           = (Some (Eth.mkReceipt unit Eth.ReceiptStatusSuccessful tt), err0)
        /\ (forall j, (j <= p)%nat ->
                      sample_clock j < Eth.ReceiptTimeout _ _ _ sample_client)
        /\ (forall j, (j < p)%nat -> fst (sample_receipts tt t j) = None)
        /\ None = (if Eth.ReceiptStatusSuccessful =? Eth.ReceiptStatusFailed
                   then Some Eth.ErrReceiptStatusFailed else err0).
Proof.
  apply (WaitReceipt_result unit nat unit nat unit sample_receipts
           sample_clock 10 sample_client (Some 9%nat)
           (Some (Eth.mkReceipt unit Eth.ReceiptStatusSuccessful tt)) None).
  vm_compute; reflexivity.
Defined.

Lemma WaitReceipt_bounded_witness :
  (exists r,
      Eth.WaitReceipt unit nat unit nat unit sample_receipts sample_clock
                      300 sample_client (Some 9%nat)
      = Utils.Returns r)
  /\ (Eth.ReceiptTimeout _ _ _ sample_client <= sample_clock 0 ->
      Eth.WaitReceipt unit nat unit nat unit sample_receipts sample_clock
                      300 sample_client (Some 9%nat)
      = Utils.Returns (None, Some Eth.ErrReceiptNotRecieved)).
Proof.
  apply (WaitReceipt_bounded unit nat unit nat unit sample_receipts
           sample_clock 300 sample_client 9%nat).
  - intros i. unfold sample_clock. lia.
  - unfold sample_clock. lia.
  - vm_compute. discriminate.
Defined.

Lemma Deploy_result_witness :
  let fn := fun (_ : unit) (auth : Eth.TransactOpts unit) =>
              (Eth.GasLimit _ auth, Some 9%nat, tt, @None Eth.error) in
  Eth.Deploy unit nat unit Z nat unit unit unit 0 sample_price
             sample_transactor sample_receipts sample_clock 10 sample_client
             "token" fn
  = Utils.Returns
      (Eth.mkContractData Z nat unit 1000000 (Some 9%nat)
         (Some (Eth.mkReceipt unit Eth.ReceiptStatusSuccessful tt)), None)
  /\ exists r,
      Some (Eth.mkReceipt unit Eth.ReceiptStatusSuccessful tt) = Some r
      /\ Eth.Status _ r <> Eth.ReceiptStatusFailed.
Proof.
  assert (H : Eth.Deploy unit nat unit Z nat unit unit unit 0 sample_price
                sample_transactor sample_receipts sample_clock 10
                sample_client "token"
                (fun (_ : unit) (auth : Eth.TransactOpts unit) =>
                   (Eth.GasLimit _ auth, Some 9%nat, tt, @None Eth.error))
              = Utils.Returns
                  (Eth.mkContractData Z nat unit 1000000 (Some 9%nat)
                     (Some (Eth.mkReceipt unit Eth.ReceiptStatusSuccessful
                                          tt)), None))
    by (vm_compute; reflexivity).
  split; [exact H|].
  exact (proj2 (Deploy_result unit nat unit Z nat unit unit unit 0
                  sample_price sample_transactor sample_receipts
                  sample_clock 10 sample_client "token" _ _ None H)).
Defined.

(** ** More on checks and errors *)
Section ChecksAndErrors.
Import Utils.

(** A hash that passes [CheckPoW] at a difficulty passes at every lower
    one; the hash of 32 zero bytes passes at every difficulty from 0 to
    32, and a hash passes at 32 only if it is that hash. *)
Theorem CheckPoW_monotone (hash : Hash) (d d' : Z) :
  CheckPoW hash d = Some true -> 0 <= d' <= d ->
  CheckPoW hash d' = Some true
  /\ CheckPoW hash_zero d = Some true
  /\ (d = 32 -> Bytes hash = repeat 0 32).
Proof.
  intros H Hd.
  pose proof (CheckPoW_returns_in_range _ _ _ H) as Hr.
  rewrite (CheckPoW_in_range hash d Hr) in H. injection H as H.
  apply Z.leb_le in H.
  split; [|split].
  - rewrite CheckPoW_in_range by lia. f_equal. apply Z.leb_le. lia.
  - rewrite CheckPoW_in_range by lia. f_equal. apply Z.leb_le.
    change (LeadingZeroBytes (Bytes hash_zero)) with 32. lia.
  - intros ->. pose proof (Bytes_length hash) as Hl.
    assert (G : forall l : list Z,
               Z.of_nat (length l) <= LeadingZeroBytes l ->
               l = repeat 0 (length l)).
    { clear. induction l as [|b t IH]; [reflexivity|].
      cbn [LeadingZeroBytes length repeat]. intros Hb.
      pose proof (LeadingZeroBytes_nonneg t).
      destruct (b =? 0) eqn:Eb; [|lia].
      apply Z.eqb_eq in Eb. subst b. f_equal. apply IH. lia. }
    replace (repeat 0 32) with (repeat 0 (length (Bytes hash)))
      by (rewrite Hl; reflexivity).
    apply G. rewrite Hl. exact H.
Qed.

Lemma CheckPoW_monotone_witness :
  CheckPoW hash_0000_80 1 = Some true
  /\ CheckPoW hash_zero 2 = Some true
  /\ (2 = 32 -> Bytes hash_0000_80 = repeat 0 32).
Proof.
  apply (CheckPoW_monotone hash_0000_80 2 1).
  - vm_compute; reflexivity.
  - lia.
Defined.

(** [EthAddressFromID] returns an address only for an identifier whose
    genesis field is the one [GenesisFromEthAddress] builds from that
    address: seven zero bytes followed by the twenty bytes returned. *)
Theorem EthAddressFromID_genesis (id addr : list Z) :
  length id = 31%nat ->
  Core.EthAddressFromID id = (addr, None) ->
  length addr = 20%nat
  /\ sub id 2 (2 + genesisLn) = Core.GenesisFromEthAddress addr.
Proof.
  intros Hl H.
  do 31 (destruct id as [|? id]; [discriminate Hl|]).
  destruct id; [|discriminate Hl].
  unfold Core.EthAddressFromID in H. cbn [repeat length sub skipn firstn Nat.add Nat.sub] in H.
  match type of H with
  | context [bytes_Equal ?a ?b] => destruct (bytes_Equal a b) eqn:Eq
  end; cbn [negb] in H; [|discriminate H].
  apply bytes_Equal_eq in Eq. injection Eq as <- <- <- <- <- <- <-.
  injection H as <-. split; reflexivity.
Qed.

Lemma EthAddressFromID_genesis_witness :
  let id := [2; 17] ++ repeat 0 7 ++ repeat 9 20 ++ [1; 2] in
  length (repeat 9 20) = 20%nat
  /\ sub id 2 (2 + genesisLn) = Core.GenesisFromEthAddress (repeat 9 20).
Proof.
  apply (EthAddressFromID_genesis
           ([2; 17] ++ repeat 0 7 ++ repeat 9 20 ++ [1; 2]) (repeat 9 20));
    reflexivity.
Defined.

(** Every error of [idFromDID] is one of four kinds: [ErrMethodUnknown]
    itself, with the zero identifier; an error wrapping [ErrIncorrectDID];
    or one of the two table errors [ErrDIDMethodNotSupported] and
    [ErrBlockchainNotSupportedForDID], unwrapped. *)
Theorem idFromDID_error_kinds (E : Externals) (did : DID) (id : list Z)
        (e : error) :
  ExternalsOK E ->
  Core.idFromDID E did = (id, Some e) ->
  (e = Var ErrMethodUnknown /\ id = ID_zero)
  \/ errors_Is e ErrIncorrectDID = true
  \/ e = Var ErrDIDMethodNotSupported
  \/ e = Var ErrBlockchainNotSupportedForDID.
Proof.
  intros HE H. unfold Core.idFromDID in H.
  destruct (negb (existsb _ _));
    [injection H as <- <-; left; split; reflexivity|].
  destruct ((3 <? length (IDStrings did)) || (length (IDStrings did) <? 1))%nat;
    [injection H as <- <-; right; left; reflexivity|].
  destruct (IDFromString E _) as [id' [e'|]];
    [injection H as <- <-; right; left; reflexivity|].
  destruct (negb (CheckChecksum E id'));
    [injection H as <- <-; right; left; reflexivity|].
  destruct (decodeDIDPartsFromID_cases E id' HE)
    as [(flag & Ht & R)|[(_ & R)|(_ & _ & R)]]; rewrite R in H.
  - repeat match type of H with
           | (if ?c then _ else _) = _ =>
               destruct c;
               [injection H as <- <-; right; left; reflexivity|]
           end.
    discriminate H.
  - injection H as <- <-. right; right; left; reflexivity.
  - injection H as <- <-. right; right; right; reflexivity.
Qed.

Lemma idFromDID_error_kinds_witness :
  let e := Errorf (Var ErrIncorrectDID)
                  "blockchains in ID and DID are different" in
  (e = Var ErrMethodUnknown /\ id_iden3_polygon_main = ID_zero)
  \/ errors_Is e ErrIncorrectDID = true
  \/ e = Var ErrDIDMethodNotSupported
  \/ e = Var ErrBlockchainNotSupportedForDID.
Proof.
  apply (idFromDID_error_kinds Reference.externals did_iden3_eth
           id_iden3_polygon_main _ Reference_externals_ok).
  vm_compute; reflexivity.
Defined.

(** [ParseDIDFromID] returns no DID together with an error. Without an
    error the identifier has a valid checksum, its type bytes are an entry
    of the table of a known method, and the result is what the DID parser
    returns for the text made of the schema, the method name, the
    blockchain, the network unless it is empty, and the text of the
    identifier, joined by colons. *)
Theorem ParseDIDFromID_result (E : Externals) (id : list Z)
        (r : option DID) (err : option error) :
  ExternalsOK E ->
  Core.ParseDIDFromID E id = (r, err) ->
  match err with
  | Some _ => r = None
  | None =>
      CheckChecksum E id = true
      /\ exists flag,
          known_method (nth 0 id 0)
          /\ table_entry (nth 0 id 0) flag (nth 1 id 0)
          /\ did_Parse E
               (strings_Join
                  ([DIDSchema; Core.DIDMethod_String (nth 0 id 0);
                    flagBlockchain flag]
                   ++ (if String.eqb (flagNetworkID flag) ""
                       then [] else [flagNetworkID flag])
                   ++ [ID_String E id]) ":")
             = (r, None)
  end.
Proof.
  intros HE H. unfold Core.ParseDIDFromID in H.
  destruct (CheckChecksum E id) eqn:Hc; cbn [negb] in H;
    [|injection H as <- <-; reflexivity].
  destruct (decodeDIDPartsFromID_cases E id HE)
    as [(flag & Ht & R)|[(_ & R)|(_ & _ & R)]]; rewrite R in H;
    try (injection H as <- <-; reflexivity).
  destruct (Core.isUnsupportedDID _ _ _) eqn:Hu;
    [injection H as <- <-; reflexivity|].
  match type of H with
  | context [did_Parse E ?t] =>
      destruct (did_Parse E t) as [d [e|]] eqn:Hp
  end; injection H as <- <-; [reflexivity|].
  split; [reflexivity|]. exists flag.
  split; [exact (supported_entry_known _ _ _ Ht Hu)|].
  split; [exact Ht|].
  rewrite <- Hp. f_equal. f_equal.
  destruct (String.eqb (flagNetworkID flag) ""); reflexivity.
Qed.

Lemma ParseDIDFromID_result_witness :
  CheckChecksum Reference.externals id_iden3_polygon_main = true
  /\ exists flag,
      known_method (nth 0 id_iden3_polygon_main 0)
      /\ table_entry (nth 0 id_iden3_polygon_main 0) flag
                     (nth 1 id_iden3_polygon_main 0)
      /\ did_Parse Reference.externals
           (strings_Join
              ([DIDSchema;
                Core.DIDMethod_String (nth 0 id_iden3_polygon_main 0);
                flagBlockchain flag]
               ++ (if String.eqb (flagNetworkID flag) ""
                   then [] else [flagNetworkID flag])
               ++ [ID_String Reference.externals id_iden3_polygon_main])
              ":")
         = (Some (did_of "iden3"
                    ["polygon"; "main"; text_iden3_polygon_main]%string),
            None).
Proof.
  apply (ParseDIDFromID_result Reference.externals id_iden3_polygon_main
           _ None Reference_externals_ok).
  vm_compute; reflexivity.
Defined.

(** Every error of the earlier [Decompose] either wraps [ErrInvalidDID] or
    is one of the two table errors [ErrDIDMethodNotSupported] and
    [ErrNetworkNotSupportedForDID], unwrapped; with an error the
    blockchain and the network returned are the unknown ones. *)
Theorem Legacy_Decompose_error_kinds (E : Externals) (did : DID)
        (blockchain networkID : string) (id : list Z) (e : error) :
  ExternalsOK E ->
  CoreLegacy.Decompose E did = (blockchain, networkID, id, Some e) ->
  blockchain = UnknownChain /\ networkID = UnknownNetwork
  /\ (errors_Is e ErrInvalidDID = true
      \/ e = Var ErrDIDMethodNotSupported
      \/ e = Var ErrNetworkNotSupportedForDID).
Proof.
  intros HE H. unfold CoreLegacy.Decompose in H.
  destruct (CoreLegacy.decodeIDFromDID E did) as [id' [e'|]] eqn:Hd.
  - injection H as <- <- <- <-. repeat split. left.
    unfold CoreLegacy.decodeIDFromDID in Hd.
    destruct (3 <? length (IDStrings did))%nat;
      [injection Hd as <- <-; reflexivity|].
    destruct (length (IDStrings did) <? 1)%nat;
      [injection Hd as <- <-; reflexivity|].
    destruct (IDFromString E _) as [i [x|]];
      [injection Hd as <- <-; reflexivity|].
    destruct (negb (CheckChecksum E i));
      [injection Hd as <- <-; reflexivity | discriminate Hd].
  - destruct (Legacy_decode_cases E id' HE)
      as [(m & flag & _ & _ & R)|[(_ & R)|(m & _ & _ & R)]]; rewrite R in H.
    + repeat match type of H with
             | (if ?c then _ else _) = _ =>
                 destruct c;
                 [injection H as <- <- <- <-; repeat split; left; reflexivity|]
             end.
      discriminate H.
    + injection H as <- <- <- <-. repeat split. right; left; reflexivity.
    + injection H as <- <- <- <-. repeat split. right; right; reflexivity.
Qed.

Lemma Legacy_Decompose_error_kinds_witness :
  let e := Errorf (Var ErrInvalidDID)
                  "blockchain mismatch: found polygon in ID but eth in DID" in
  UnknownChain = UnknownChain /\ UnknownNetwork = UnknownNetwork
  /\ (errors_Is e ErrInvalidDID = true
      \/ e = Var ErrDIDMethodNotSupported
      \/ e = Var ErrNetworkNotSupportedForDID).
Proof.
  apply (Legacy_Decompose_error_kinds Reference.externals did_iden3_eth
           UnknownChain UnknownNetwork id_iden3_polygon_main _
           Reference_externals_ok).
  vm_compute; reflexivity.
Defined.

End ChecksAndErrors.
